(** * Protosite backend: project tree, GitHub export and OAuth sessions

    A shallow embedding of [src/backend/express_backend.ts]: the virtual
    project tree built by [AppSchema.getAppSchema] and
    [buildAppHierarchy], the upload route that stores it, the recursive
    export walk [createFiles] with its upsert [createOrUpdateFile]
    behind [/api/github/export], and the session table behind the
    [/api/github/auth], [/api/github/callback] and
    [/api/github/auth/status] routes.

    The definitions come first, in the order of the source; the
    statements about them follow: the object assignments, the merge, the
    export, the sessions, the uploads. *)

From Stdlib Require Import ZArith Ascii String.
From stdpp Require Import gmap strings list fin_maps.

Local Open Scope string_scope.
Local Open Scope list_scope.

(** ** JavaScript objects used as ordered maps

    The project tree and the generated payload are plain JavaScript
    objects whose own properties are read back with [Object.entries].
    An object is modelled by the list of its own properties in
    [Object.entries] order: assigning to a name that is already there
    replaces the value in place, assigning to a new name appends it.
    Names are file names. Two corners of JavaScript are left out: a new
    array-index name (such as 0 or 17) is listed before the other names
    rather than appended, and the name [__proto__] is no own property
    (the schema validation drops it from a payload). No statement below
    depends on the relative order of siblings in a merged tree. *)

Section JsObject.
Context {V : Type}.

(** [o[k]], with [None] for [undefined]. *)
Fixpoint obj_get (k : string) (o : list (string * V)) : option V :=
  match o with
  | [] => None
  | (k', v) :: o' => if String.eqb k' k then Some v else obj_get k o'
  end.

(** [o[k] = v]. *)
Fixpoint obj_set (k : string) (v : V) (o : list (string * V)) : list (string * V) :=
  match o with
  | [] => [(k, v)]
  | (k', v') :: o' =>
      if String.eqb k' k then (k', v) :: o' else (k', v') :: obj_set k v o'
  end.

Definition keys (o : list (string * V)) : list string := map fst o.

(** Running [o[k] = v] for every [[k, v]] of [es], first to last. *)
Definition set_all (es : list (string * V)) (o : list (string * V)) : list (string * V) :=
  fold_left (fun acc kv => obj_set (fst kv) (snd kv) acc) es o.
End JsObject.

(** ** The project tree

    A value of the tree is [{ file: { contents } }] or
    [{ directory: { name: value, ... } }]; [Other] stands for any value
    that is neither (not an object, [null], or an object with neither
    key), which the export walk steps over. *)

#[warnings="-register-all"]
Inductive node : Type :=
| File (contents : string)
| Directory (entries : list (string * node))
| Other.

Abbreviation tree := (list (string * node)).

(** [value.directory], [None] when the property is [undefined]. *)
Definition directory_of (value : node) : option tree :=
  match value with
  | Directory d => Some d
  | _ => None
  end.

(** The double quote cannot be typed inside the literals below, so the
    two texts that contain it are written with a backquote in its place
    and [quoted] puts the double quote back. Neither text contains a
    backquote of its own. *)
Definition dquote : Ascii.ascii := "034"%char.

Fixpoint quoted (s : string) : string :=
  match s with
  | EmptyString => EmptyString
  | String c s' => String (if Ascii.eqb c "`"%char then dquote else c) (quoted s')
  end.

Module AppSchema.

Definition package_json : string := quoted
"{
  `name`: `canva-vite-react-app`,
  `version`: `1.0.0`,
  `description`: `Your Canva Design as a Vite + React Project`,
  `type`: `module`,
  `scripts`: {
    `dev`: `vite`,
    `build`: `vite build`,
    `preview`: `vite preview`,
    `serve`: `vite preview --port 4173`
  },
  `devDependencies`: {
    `@vitejs/plugin-react`: `^4.0.0`,
    `vite`: `^5.0.0`,
    `autoprefixer`: `^10.4.14`,
    `postcss`: `^8.4.24`
  },
  `dependencies`: {
    `react`: `^18.2.0`,
    `react-dom`: `^18.2.0`,
    `react-router-dom`: `^6.23.0`,
    `clsx`: `^2.1.0`,
    `@heroicons/react`: `^2.1.0`,
    `react-icons`: `^4.12.0`,
    `@headlessui/react`: `^1.7.0`
  },
  `keywords`: [
    `vite`,
    `react`,
    `tailwind`,
    `css`,
    `frontend`,
    `modern`
  ],
  `author`: ``,
  `license`: `MIT`,
  `engines`: {
    `node`: `>=18.0.0`
  }
}
".

Definition vite_config_js : string :=
"import { defineConfig } from 'vite'
import react from '@vitejs/plugin-react'

export default defineConfig({
  plugins: [react()],
  
  // Basic server configuration
  server: {
    port: 3000,
    host: true, // Listen on all addresses
    open: true  // Open browser on server start
  },
  
  // Build configuration
  build: {
    outDir: 'dist',
    sourcemap: true,
    minify: 'esbuild'
  },
  
  // Public base path
  base: './',
  
  // Define global constants
  define: {
    __APP_VERSION__: JSON.stringify(process.env.npm_package_version)
  }
})".

Definition index_html : string := quoted
"<!DOCTYPE html>
<html lang=`en`>
  <head>
    <meta charset=`UTF-8` />
    <link rel=`icon` type=`image/svg+xml` href=`/vite.svg` />
    <link rel=`preconnect` href=`https://fonts.googleapis.com` />
    <link rel=`preconnect` href=`https://fonts.gstatic.com` crossorigin />
    <link href=`https://fonts.googleapis.com/css2?family=Inter:wght@400;600&display=swap` rel=`stylesheet` />
    <meta name=`viewport` content=`width=device-width, initial-scale=1.0` />
    <title>Vite App</title>
  </head>
  <body>
    <div id=`root`></div>
    <script type=`module` src=`/src/main.jsx`></script>
  </body>
</html>".

(** [AppSchema.getAppSchema()]: every call evaluates the object literal
    anew, so the caller owns a tree that shares nothing with earlier
    ones. *)
Definition getAppSchema : tree :=
  [ ("package.json", File package_json);
    ("vite.config.js", File vite_config_js);
    ("index.html", File index_html);
    ("src", Directory
       [ ("components", Directory []);
         ("styles", Directory []) ]) ].

End AppSchema.

(** ** The generated payload

    [appFiles] is what the agent returned: possibly [undefined], and
    each of its three sections possibly missing. A section is modelled
    by what the code observes of it: [None] when it is falsy
    ([undefined], [null], an empty string, ...), otherwise the
    [Object.entries] of the value, file names with the file texts the
    schema makes strings. *)

Abbreviation section := (list (string * string)).

Record generated : Type := {
  components : option section;
  styles : option section;
  pages : option section;
}.

(** [appFiles?.components] and its two siblings. *)
Definition components_of (appFiles : option generated) : option section :=
  appFiles ≫= components.
Definition styles_of (appFiles : option generated) : option section :=
  appFiles ≫= styles.
Definition pages_of (appFiles : option generated) : option section :=
  appFiles ≫= pages.

(** ** Merging the payload: [buildAppHierarchy]

    Each assignment walks the property chain from [appSchema] again; a
    step through [undefined] throws a [TypeError], rendered as [None].
    The tree is an object mutated in place: the functional update writes
    the changed directory back under the name it was read from. *)

(** The assignment below a directory [name] of [src], of which the
    loops for components and styles are the two instances. *)
Definition assign_under (name : string) (appSchema : tree) (file code : string) : option tree :=
  src ← obj_get "src" appSchema;
  src_dir ← directory_of src;
  sub ← obj_get name src_dir;
  sub_dir ← directory_of sub;
  Some (obj_set "src"
          (Directory (obj_set name
                        (Directory (obj_set file (File code) sub_dir)) src_dir))
          appSchema).

(** [appSchema.src.directory.components.directory[file] =
     { file: { contents: code } }] *)
Definition assign_component (appSchema : tree) (file code : string) : option tree :=
  src ← obj_get "src" appSchema;
  src_dir ← directory_of src;
  comp ← obj_get "components" src_dir;
  comp_dir ← directory_of comp;
  Some (obj_set "src"
          (Directory (obj_set "components"
                        (Directory (obj_set file (File code) comp_dir)) src_dir))
          appSchema).

(** [appSchema.src.directory.styles.directory[file] =
     { file: { contents: code } }] *)
Definition assign_style (appSchema : tree) (file code : string) : option tree :=
  src ← obj_get "src" appSchema;
  src_dir ← directory_of src;
  sty ← obj_get "styles" src_dir;
  sty_dir ← directory_of sty;
  Some (obj_set "src"
          (Directory (obj_set "styles"
                        (Directory (obj_set file (File code) sty_dir)) src_dir))
          appSchema).

(** [appSchema.src.directory[file] = { file: { contents: code } }] *)
Definition assign_page (appSchema : tree) (file code : string) : option tree :=
  src ← obj_get "src" appSchema;
  src_dir ← directory_of src;
  Some (obj_set "src" (Directory (obj_set file (File code) src_dir)) appSchema).

(** [for (const [file, code] of Object.entries(sec)) body] *)
Fixpoint for_entries (body : tree -> string -> string -> option tree)
    (sec : section) (appSchema : tree) : option tree :=
  match sec with
  | [] => Some appSchema
  | (file, code) :: rest =>
      appSchema' ← body appSchema file code;
      for_entries body rest appSchema'
  end.

(** [if (sec) { for ... }] *)
Definition merge_section (body : tree -> string -> string -> option tree)
    (sec : option section) (appSchema : tree) : option tree :=
  match sec with
  | Some es => for_entries body es appSchema
  | None => Some appSchema
  end.

(** The three loops of [buildAppHierarchy], run on a given tree. *)
Definition mergeFiles (appSchema : tree) (appFiles : option generated) : option tree :=
  t1 ← merge_section assign_component (components_of appFiles) appSchema;
  t2 ← merge_section assign_style (styles_of appFiles) t1;
  merge_section assign_page (pages_of appFiles) t2.

Definition buildAppHierarchy (appFiles : option generated) : option tree :=
  mergeFiles AppSchema.getAppSchema appFiles.

(** The file (if any) found by following [path] down from the root. *)
Fixpoint node_at (path : list string) (t : tree) : option node :=
  match path with
  | [] => None
  | [k] => obj_get k t
  | k :: rest => d ← obj_get k t ≫= directory_of; node_at rest d
  end.

(** ** The hosting provider

    The exporter talks to GitHub through four Octokit calls. What the
    provider answers is not decided by this program, so the client is a
    record of transition functions over an arbitrary provider state [R]:
    each call returns its outcome and the provider's next state. *)

(** A thrown value, as far as the code inspects it: [error.status] and
    [error.response?.status], each [None] when [undefined]. *)
Record thrown : Type := {
  status : option Z;
  response_status : option Z;
}.

Inductive outcome (A : Type) : Type :=
| Return (a : A)
| Throw (e : thrown).
Arguments Return {A} a.
Arguments Throw {A} e.

(** The [data] of [repos.getContent]: an array for a directory listing,
    otherwise an object with a [type] and a [sha]. *)
Inductive content_data : Type :=
| ContentArray
| ContentEntry (type : string) (sha : string).

(** The [params] handed to [repos.createOrUpdateFileContents]; [sha] is
    [None] when the property is not set. *)
Record file_params : Type := {
  owner : string;
  repo : string;
  path : string;
  message : string;
  content : string;
  sha : option string;
}.

Record repo_params : Type := {
  name : string;
  description : string;
  private : bool;
  auto_init : bool;
}.

Record Octokit (R : Type) : Type := {
  users_getAuthenticated : R -> outcome string * R;
  repos_createForAuthenticatedUser : repo_params -> R -> outcome string * R;
  repos_getContent : string -> string -> string -> R -> outcome content_data * R;
  repos_createOrUpdateFileContents : file_params -> R -> outcome unit * R;
}.
Arguments users_getAuthenticated {R} _ _.
Arguments repos_createForAuthenticatedUser {R} _ _ _.
Arguments repos_getContent {R} _ _ _ _ _.
Arguments repos_createOrUpdateFileContents {R} _ _ _.

(** What an export does to the outside world, in order, each call with
    the answer it got. *)
Inductive event : Type :=
| GetAuthenticated (reply : outcome string)
| CreateForAuthenticatedUser (params : repo_params) (reply : outcome string)
| GetContent (owner repo path : string) (reply : outcome content_data)
| CreateOrUpdateFileContents (params : file_params) (reply : outcome unit)
| SetTimeout (ms : Z).

(** ** Base64

    [Buffer.from(content).toString("base64")]; a string is the sequence
    of its UTF-8 bytes. *)
Module Base64.

Definition alphabet : string :=
  "ABCDEFGHIJKLMNOPQRSTUVWXYZabcdefghijklmnopqrstuvwxyz0123456789+/".

Definition digit (n : N) : ascii :=
  default "="%char (String.get (N.to_nat n) alphabet).

Fixpoint encode (s : string) : string :=
  match s with
  | EmptyString => EmptyString
  | String a EmptyString =>
      let x := N_of_ascii a in
      String (digit (x / 4))
        (String (digit (x mod 4 * 16)) "==")
  | String a (String b EmptyString) =>
      let x := N_of_ascii a in
      let y := N_of_ascii b in
      String (digit (x / 4))
        (String (digit (x mod 4 * 16 + y / 16))
           (String (digit (y mod 16 * 4)) "="))
  | String a (String b (String c rest)) =>
      let x := N_of_ascii a in
      let y := N_of_ascii b in
      let z := N_of_ascii c in
      String (digit (x / 4))
        (String (digit (x mod 4 * 16 + y / 16))
           (String (digit (y mod 16 * 4 + z / 64))
              (String (digit (z mod 64)) (encode rest))))
  end.

End Base64.

(** ** The export walk *)

(** [currentPath ? `${currentPath}/${key}` : key] *)
Definition join_path (currentPath key : string) : string :=
  if String.eqb currentPath EmptyString then key else currentPath +:+ "/" +:+ key.

Definition readmeContent : string :=
"# Canva Design Export

This project was generated from a Canva design using Protosite.

## Getting Started

```bash
npm install
npm run dev
```

## About

This application was automatically generated from your Canva design and converted into a working web application.
".

Section ExportSteps.
Context {R : Type} (octokit : Octokit R).

(** An asynchronous step of the export: from the provider's state to
    the value returned or the error thrown, the provider's next state
    and the calls made on the way. *)
Definition M (A : Type) : Type := R -> outcome A * R * list event.

Definition ret {A} (a : A) : M A := fun r => (Return a, r, []).

Definition throw {A} (e : thrown) : M A := fun r => (Throw e, r, []).

(** [await m] followed by [k]: an error thrown by [m] skips [k]. *)
Definition bind {A B} (m : M A) (k : A -> M B) : M B :=
  fun r =>
    match m r with
    | (Return a, r', evs) =>
        let '(b, r'', evs') := k a r' in (b, r'', evs ++ evs')
    | (Throw e, r', evs) => (Throw e, r', evs)
    end.

(** [try { m } catch (error) { handler }] *)
Definition try_catch {A} (m : M A) (handler : thrown -> M A) : M A :=
  fun r =>
    match m r with
    | (Return a, r', evs) => (Return a, r', evs)
    | (Throw e, r', evs) =>
        let '(b, r'', evs') := handler e r' in (b, r'', evs ++ evs')
    end.

Definition getAuthenticated : M string :=
  fun r => let '(x, r') := users_getAuthenticated octokit r in
           (x, r', [GetAuthenticated x]).

Definition createForAuthenticatedUser (params : repo_params) : M string :=
  fun r => let '(x, r') := repos_createForAuthenticatedUser octokit params r in
           (x, r', [CreateForAuthenticatedUser params x]).

Definition getContent (owner repo path : string) : M content_data :=
  fun r => let '(x, r') := repos_getContent octokit owner repo path r in
           (x, r', [GetContent owner repo path x]).

Definition createOrUpdateFileContents (params : file_params) : M unit :=
  fun r => let '(x, r') := repos_createOrUpdateFileContents octokit params r in
           (x, r', [CreateOrUpdateFileContents params x]).

(** [await new Promise((resolve) => setTimeout(resolve, ms))] *)
Definition setTimeout (ms : Z) : M unit := fun r => (Return tt, r, [SetTimeout ms]).

End ExportSteps.

Arguments M R A : clear implicits.

#[global] Instance export_ret {R} : MRet (M R) := fun A => ret.
#[global] Instance export_bind {R} : MBind (M R) := fun A B k m => bind m k.

Section ExportWalk.
Context {R : Type} (octokit : Octokit R).

(** The [sha] of the file already at the path; [None] is the [null]
    the variable starts with. *)
Definition existing_sha (existingFile : content_data) : option string :=
  match existingFile with
  | ContentEntry type sha => if String.eqb type "file" then Some sha else None
  | ContentArray => None
  end.

(** [if (sha) { params.sha = sha }]: an empty string is falsy. *)
Definition sha_param (sha : option string) : option string :=
  match sha with
  | Some s => if String.eqb s EmptyString then None else Some s
  | None => None
  end.

Definition createOrUpdateFile (owner repo path content message : string) : M R unit :=
  sha ← try_catch
          (existingFile ← getContent octokit owner repo path;
           ret (existing_sha existingFile))
          (fun error =>
             if bool_decide (status error = Some 404%Z) then ret None
             else throw error);
  createOrUpdateFileContents octokit
    {| owner := owner; repo := repo; path := path; message := message;
       content := Base64.encode content; sha := sha_param sha |}.

(** What [createFiles] does with one [value] found under [fullPath];
    for a directory this is the recursive call
    [createFiles(octokit, owner, repo, fullPath, value.directory)], the
    loop over its entries followed by the README write. *)
Fixpoint visit (owner repo fullPath : string) (value : node) {struct value} : M R unit :=
  match value with
  | File contents =>
      createOrUpdateFile owner repo fullPath contents ("Add " +:+ fullPath) ;;
      setTimeout 100
  | Directory directory =>
      (fix loop (entries : tree) : M R unit :=
         match entries with
         | [] => ret tt
         | (key, value') :: rest =>
             visit owner repo (join_path fullPath key) value' ;;
             loop rest
         end) directory ;;
      createOrUpdateFile owner repo "README.md" readmeContent "Add README"
  | Other => ret tt
  end.

Definition createFiles (owner repo currentPath : string) (directoryObj : tree) : M R unit :=
  visit owner repo currentPath (Directory directoryObj).

(** [for (const [key, value] of Object.entries(directoryObj)) body],
    the loop of [createFiles] on its own. *)
Fixpoint for_each_entry (body : string -> node -> M R unit) (entries : tree) : M R unit :=
  match entries with
  | [] => ret tt
  | (key, value) :: rest => body key value;; for_each_entry body rest
  end.

End ExportWalk.

(** ** Observations on trees and payloads *)

(** The entries of a section, none when the section is skipped. *)
Definition entries_of (sec : option section) : section := default [] sec.


(** The values [{ file: { contents: code } }] the loops assign. *)
Definition as_files (sec : section) : tree :=
  map (fun entry => (entry.1, File entry.2)) sec.

(** The tree [buildAppHierarchy] returns, written out: the skeleton
    with the three loops applied where they assign. *)
Definition merged (comps stys pgs : section) : tree :=
  [ ("package.json", File AppSchema.package_json);
    ("vite.config.js", File AppSchema.vite_config_js);
    ("index.html", File AppSchema.index_html);
    ("src", Directory
       (set_all (as_files pgs)
          [ ("components", Directory (set_all (as_files comps) []));
            ("styles", Directory (set_all (as_files stys) [])) ])) ].

(** The three sections are objects: no name occurs twice in one. *)
Definition distinct_names (appFiles : option generated) : Prop :=
  NoDup (keys (entries_of (components_of appFiles))) /\
  NoDup (keys (entries_of (styles_of appFiles))) /\
  NoDup (keys (entries_of (pages_of appFiles))).

(** The files of a tree with their full paths, in the order of the
    walk. *)
Fixpoint files_of (fullPath : string) (value : node) {struct value} : list (string * string) :=
  match value with
  | File contents => [(fullPath, contents)]
  | Directory directory =>
      (fix loop (entries : tree) : list (string * string) :=
         match entries with
         | [] => []
         | (key, value') :: rest => files_of (join_path fullPath key) value' ++ loop rest
         end) directory
  | Other => []
  end.

(** The number of directories nested in a value, itself included. *)
Fixpoint directories_in (value : node) : nat :=
  match value with
  | Directory directory =>
      S ((fix loop (entries : tree) : nat :=
            match entries with
            | [] => O
            | (_, value') :: rest => directories_in value' + loop rest
            end) directory)
  | _ => O
  end.

(** No directory of the value holds two entries of the same name. *)
Fixpoint unique_names (value : node) : Prop :=
  match value with
  | Directory directory =>
      NoDup (keys directory) /\
      (fix loop (entries : tree) : Prop :=
         match entries with
         | [] => True
         | (_, value') :: rest => unique_names value' /\ loop rest
         end) directory
  | _ => True
  end.

(** A page named like one of the two directories of [src] takes the
    directory's place. *)
Definition reserved_page (appFiles : option generated) : Prop :=
  In "components" (keys (entries_of (pages_of appFiles))) \/
  In "styles" (keys (entries_of (pages_of appFiles))).

(** The names of two sections do not overlap. *)
Definition disjoint_names (a b : section) : Prop :=
  forall file, In file (keys a) -> ~ In file (keys b).

Definition pairwise_disjoint (appFiles : option generated) : Prop :=
  disjoint_names (entries_of (components_of appFiles)) (entries_of (styles_of appFiles)) /\
  disjoint_names (entries_of (components_of appFiles)) (entries_of (pages_of appFiles)) /\
  disjoint_names (entries_of (styles_of appFiles)) (entries_of (pages_of appFiles)).

(** Every entry of the payload is a file of [t] under the directory of
    its section, and the three files of the skeleton's root are as
    [getAppSchema] made them. *)
Definition sections_placed (appFiles : option generated) (t : tree) : Prop :=
  (forall file code, In (file, code) (entries_of (components_of appFiles)) ->
     node_at ["src"; "components"; file] t = Some (File code)) /\
  (forall file code, In (file, code) (entries_of (styles_of appFiles)) ->
     node_at ["src"; "styles"; file] t = Some (File code)) /\
  (forall file code, In (file, code) (entries_of (pages_of appFiles)) ->
     node_at ["src"; file] t = Some (File code)) /\
  node_at ["package.json"] t = Some (File AppSchema.package_json) /\
  node_at ["vite.config.js"] t = Some (File AppSchema.vite_config_js) /\
  node_at ["index.html"] t = Some (File AppSchema.index_html).

(** Where a file of a merged tree can come from: the skeleton, or an
    entry of the payload under the directory of its section. *)
Definition from_skeleton_or_payload (appFiles : option generated)
    (file : string * string) : Prop :=
  file = ("package.json", AppSchema.package_json) \/
  file = ("vite.config.js", AppSchema.vite_config_js) \/
  file = ("index.html", AppSchema.index_html) \/
  (exists name, file.1 = "src/components/" +:+ name /\
     In (name, file.2) (entries_of (components_of appFiles))) \/
  (exists name, file.1 = "src/styles/" +:+ name /\
     In (name, file.2) (entries_of (styles_of appFiles))) \/
  (exists name, file.1 = "src/" +:+ name /\
     In (name, file.2) (entries_of (pages_of appFiles))).

(** ** The backend: state and responses *)

(** One entry of [githubAuthSessions]: [{ timestamp, token? }]. Times
    are [Date.now()] readings, whole milliseconds. *)
Record session : Type := {
  timestamp : Z;
  token : option string;
}.

(** The fields of [ProtositeBackend] that the routes read or write. The
    two OAuth settings come from the environment and may be
    [undefined]. *)
Record backend : Type := {
  appStructure : tree;
  githubAuthSessions : gmap string session;
  GITHUB_CLIENT_ID : option string;
  GITHUB_CLIENT_SECRET : option string;
}.

(** [new ProtositeBackend()] *)
Definition new_backend (client_id client_secret : option string) : backend :=
  {| appStructure := AppSchema.getAppSchema;
     githubAuthSessions := ∅;
     GITHUB_CLIENT_ID := client_id;
     GITHUB_CLIENT_SECRET := client_secret |}.

Definition with_sessions (b : backend) (sessions : gmap string session) : backend :=
  {| appStructure := appStructure b;
     githubAuthSessions := sessions;
     GITHUB_CLIENT_ID := GITHUB_CLIENT_ID b;
     GITHUB_CLIENT_SECRET := GITHUB_CLIENT_SECRET b |}.

Definition with_appStructure (b : backend) (t : tree) : backend :=
  {| appStructure := t;
     githubAuthSessions := githubAuthSessions b;
     GITHUB_CLIENT_ID := GITHUB_CLIENT_ID b;
     GITHUB_CLIENT_SECRET := GITHUB_CLIENT_SECRET b |}.

(** A request parameter or setting that should be a string: [None] when
    it is absent or a falsy value that is no string ([null], [0],
    [false]), and also when it is a value of another type for the two
    handlers that test [typeof x !== "string"] (the callback and the
    status route). It passes a [!x] test when it is a non-empty
    string. *)
Definition truthy (x : option string) : bool :=
  match x with
  | Some s => negb (String.eqb s EmptyString)
  | None => false
  end.
Arguments truthy : simpl never.

(** What a route sends. A JSON body is the list of its fields; the two
    HTML pages of the callback are named by their title. *)
Inductive json : Type :=
| JBool (b : bool)
| JStr (s : string)
| JTree (t : tree).

Inductive body : Type :=
| Json (fields : list (string * json))
| Text (text : string)
| Page (title : string).

Record response : Type := {
  http_status : Z;
  sent : body;
}.

(** [res.json(fields)] and [res.status(code).json(fields)] *)
Definition json_ok (fields : list (string * json)) : response :=
  {| http_status := 200; sent := Json fields |}.
Definition json_status (code : Z) (fields : list (string * json)) : response :=
  {| http_status := code; sent := Json fields |}.

(** A field of a JSON response, [None] for any other body. *)
Definition field (name : string) (r : response) : option json :=
  match sent r with
  | Json fields => obj_get name fields
  | _ => None
  end.

(** ** [POST /api/upload] *)

Inductive awaited (A : Type) : Type :=
| Resolved (a : A)
| Rejected.
Arguments Resolved {A} a.
Arguments Rejected {A}.

(** What the outside world answers during one upload: the image fetch
    ([ok] flag and byte length of the body), the description of the
    image, and the generated payload for a description. *)
Record upload_world : Type := {
  image : awaited (bool * Z);
  imageDesc : awaited string;
  appContent : string -> awaited (option generated);
}.

(** The handler; no response ([None]) when its [catch] rethrows. The
    merge and the assignment to [this.appStructure] follow the last
    await without a break. *)
Definition upload (imageUrl : option string) (w : upload_world) (b : backend)
    : backend * option response :=
  if negb (truthy imageUrl) then
    (b, Some (json_status 400 [("error", JStr "Malformed or invalid URL.")]))
  else
    match image w with
    | Rejected => (b, None)
    | Resolved (ok, length) =>
        if negb ok then
          (b, Some (json_status 500 [("error", JStr "Failed to fetch image from URL.")]))
        else if (length >? 10 * 1024 * 1024)%Z then
          (b, Some (json_status 400 [("error", JStr "File too large. Max. size is 10MB")]))
        else
          match imageDesc w with
          | Rejected => (b, None)
          | Resolved description =>
              match appContent w description with
              | Rejected => (b, None)
              | Resolved appFiles =>
                  match buildAppHierarchy appFiles with
                  | None => (b, None)
                  | Some projectStructure =>
                      (with_appStructure b projectStructure,
                       Some (json_ok [("success", JBool true);
                                      ("message", JStr "File processed successfully");
                                      ("project", JTree projectStructure)]))
                  end
              end
          end
    end.

(** ** [GET /api/project] *)
Definition project (b : backend) : backend * response :=
  (b, json_ok [("app", JTree (appStructure b))]).

(** ** [POST /api/github/auth] *)

(** [bytes.toString("hex")] *)
Definition hex_digit (n : N) : ascii :=
  default "0"%char (String.get (N.to_nat n) "0123456789abcdef").

Fixpoint toHex (bytes : list Byte.byte) : string :=
  match bytes with
  | [] => EmptyString
  | b :: rest =>
      let n := Byte.to_N b in
      String (hex_digit (n / 16)) (String (hex_digit (n mod 16)) (toHex rest))
  end.

(** Ten minutes, in milliseconds. *)
Definition TTL : Z := 10 * 60 * 1000.

(** [cleanupAuthSessions()], run when the clock reads [now]. *)
Definition cleanupAuthSessions (now : Z) (sessions : gmap string session)
    : gmap string session :=
  let tenMinutesAgo := (now - TTL)%Z in
  filter (fun entry => ¬ (timestamp entry.2 < tenMinutesAgo)%Z) sessions.

(** The handler. [randomBytes] is what [crypto.randomBytes(32)]
    returned, [now] and [swept] are the two readings of the clock (when
    the session is stored and when the sweep runs), and [redirect_uri]
    is the encoded callback address of the request. *)
Definition auth (redirect_uri : string) (randomBytes : list Byte.byte)
    (now swept : Z) (b : backend) : backend * response :=
  if negb (truthy (GITHUB_CLIENT_ID b)) then
    (b, json_status 500 [("error", JStr "GitHub OAuth not configured")])
  else
    let state := toHex randomBytes in
    let sessions := <[state := {| timestamp := now; token := None |}]> (githubAuthSessions b) in
    let sessions := cleanupAuthSessions swept sessions in
    let authUrl :=
      "https://github.com/login/oauth/authorize?client_id="
      +:+ default EmptyString (GITHUB_CLIENT_ID b)
      +:+ "&scope=repo&state=" +:+ state
      +:+ "&redirect_uri=" +:+ redirect_uri in
    (with_sessions b sessions,
     json_ok [("authUrl", JStr authUrl); ("state", JStr state)]).

(** ** [GET /api/github/callback] *)

(** The provider's answer to the token exchange: the request or the
    decoding of its body fails, or the decoded body carries an
    [access_token] or not. *)
Inductive token_exchange : Type :=
| ExchangeFails
| ExchangeData (access_token : option string).

(** The handler, run to completion with the provider's answer
    [exchange]: no other request is served between the lookup of the
    session and the write of the token, which the source separates by
    the awaits of the exchange. The session read from the table is the
    object the token is written to, so the write lands in the table. *)
Definition callback (code state : option string) (exchange : token_exchange)
    (b : backend) : backend * response :=
  match state with
  | Some st =>
      if negb (truthy code) || negb (truthy state) then
        (b, {| http_status := 400; sent := Text "Invalid callback parameters" |})
      else
        match githubAuthSessions b !! st with
        | None =>
            (b, {| http_status := 400;
                   sent := Text "Invalid or expired authentication session" |})
        | Some session =>
            match exchange with
            | ExchangeData (Some access_token) =>
                if truthy (Some access_token) then
                  (with_sessions b
                     (<[st := {| timestamp := timestamp session;
                                 token := Some access_token |}]> (githubAuthSessions b)),
                   {| http_status := 200; sent := Page "GitHub Connected" |})
                else
                  (b, {| http_status := 500; sent := Page "GitHub Connection Failed" |})
            | _ =>
                (b, {| http_status := 500; sent := Page "GitHub Connection Failed" |})
            end
        end
  | None => (b, {| http_status := 400; sent := Text "Invalid callback parameters" |})
  end.

(** ** [POST /api/github/auth/status] *)
Definition auth_status (state : option string) (now : Z) (b : backend)
    : backend * response :=
  match state with
  | Some st =>
      if negb (truthy state) then
        (b, json_status 400 [("error", JStr "Invalid state parameter")])
      else
        match githubAuthSessions b !! st with
        | None =>
            (b, json_status 404 [("authenticated", JBool false);
                                 ("error", JStr "Session not found")])
        | Some session =>
            if (now - timestamp session >? TTL)%Z then
              (with_sessions b (delete st (githubAuthSessions b)),
               json_status 410 [("authenticated", JBool false);
                                ("error", JStr "Session expired")])
            else
              match token session with
              | Some tok =>
                  if truthy (Some tok) then
                    (b, json_ok [("authenticated", JBool true); ("token", JStr tok)])
                  else
                    (b, json_ok [("authenticated", JBool false)])
              | None => (b, json_ok [("authenticated", JBool false)])
              end
        end
  | None => (b, json_status 400 [("error", JStr "Invalid state parameter")])
  end.

(** ** [POST /api/github/export] *)

(** [req.body.projectData]: [undefined] or [null], another falsy value,
    or a value whose [Object.entries] are [t]. *)
Inductive project_data : Type :=
| Nullish
| Falsy
| Entries (t : tree).

(** The body of the request, as the client sends it: [token],
    [repoName] and [description] are strings where they are present,
    [None] standing for an absent field or a falsy value that is no
    string. The handler does not test their type: a body with a truthy
    number, array or object for one of them is not a value of this
    record, and nothing is said of it. *)
Record export_body : Type := {
  body_token : option string;
  body_projectData : project_data;
  body_repoName : option string;
  body_description : option string;
}.

(** The [TypeError] of reading a property of [undefined]: it carries
    neither [status] nor [response]. *)
Definition TypeError : thrown := {| status := None; response_status := None |}.

Section ExportRoute.
Context {R : Type} (newOctokit : string -> Octokit R).

(** The [try] block of the handler. *)
Definition export_try (req : export_body) : M R response :=
  (* console.log("projectData", projectData.src) *)
  match body_projectData req with Nullish => throw TypeError | _ => ret tt end;;
  match body_token req, body_projectData req, body_repoName req with
  | Some token, Entries projectData, Some repoName =>
      if truthy (body_token req) && truthy (body_repoName req) then
        let octokit := newOctokit token in
        login ← getAuthenticated octokit;
        html_url ← createForAuthenticatedUser octokit
                     {| name := repoName;
                        description :=
                          if truthy (body_description req)
                          then default EmptyString (body_description req)
                          else "Generated from Canva design";
                        private := false;
                        auto_init := false |};
        createFiles octokit login repoName EmptyString projectData;;
        ret (json_ok [("success", JBool true);
                      ("repoUrl", JStr html_url);
                      ("message", JStr "Project exported successfully to GitHub")])
      else ret (json_status 400 [("error", JStr "Missing required parameters")])
  | _, _, _ => ret (json_status 400 [("error", JStr "Missing required parameters")])
  end.

(** The [catch] block. *)
Definition export_catch (error : thrown) : response :=
  let errorMessage :=
    if bool_decide (response_status error = Some 401%Z) then
      "GitHub authentication expired. Please reconnect."
    else if bool_decide (response_status error = Some 422%Z) then
      "Repository name already exists. Please try again."
    else "Failed to export to GitHub" in
  json_status 500 [("success", JBool false); ("error", JStr errorMessage)].

(** The handler: the response, the provider's state afterwards and the
    calls made. *)
Definition export (req : export_body) (r : R) : response * R * list event :=
  match export_try req r with
  | (Return res, r', evs) => (res, r', evs)
  | (Throw error, r', evs) => (export_catch error, r', evs)
  end.

End ExportRoute.

(** ** Requests in sequence

    The routes that touch the backend's own state, as one transition
    function; [None] is a request left without a response. *)
Inductive request : Type :=
| Upload (imageUrl : option string) (w : upload_world)
| GetProject
| Auth (redirect_uri : string) (randomBytes : list Byte.byte) (now swept : Z)
| Callback (code state : option string) (exchange : token_exchange)
| AuthStatus (state : option string) (now : Z).

Definition handle (b : backend) (req : request) : backend * option response :=
  match req with
  | Upload imageUrl w => upload imageUrl w b
  | GetProject => let '(b', res) := project b in (b', Some res)
  | Auth redirect_uri randomBytes now swept =>
      let '(b', res) := auth redirect_uri randomBytes now swept b in (b', Some res)
  | Callback code state exchange =>
      let '(b', res) := callback code state exchange b in (b', Some res)
  | AuthStatus state now =>
      let '(b', res) := auth_status state now b in (b', Some res)
  end.

(** The backend after serving [reqs] in order. *)
Definition serve (b : backend) (reqs : list request) : backend :=
  fold_left (fun b req => (handle b req).1) reqs b.

(** ** A provider to run the export against

    A repository as the list of its files, each path with its stored
    content. A lookup answers 500 for a path listed in [unreadable] and
    404 for a path that is not there; a write is refused with 409 when
    the path is there and the [sha] sent is not the stored one, and with
    403 once the write budget [quota] is used up. *)
Module SampleProvider.

Record remote : Type := {
  stored : list (string * string);
  quota : nat;
  unreadable : list string;
}.

Definition blob_sha (content : string) : string := "sha1-" +:+ content.

Definition http_error (code : Z) : thrown :=
  {| status := Some code; response_status := Some code |}.

Definition lookup (path : string) (r : remote) : outcome content_data * remote :=
  if bool_decide (path ∈ unreadable r) then (Throw (http_error 500), r)
  else
    match obj_get path (stored r) with
    | Some content => (Return (ContentEntry "file" (blob_sha content)), r)
    | None => (Throw (http_error 404), r)
    end.

Definition write (params : file_params) (r : remote) : outcome unit * remote :=
  match quota r with
  | O => (Throw (http_error 403), r)
  | S n =>
      let current := blob_sha <$> obj_get (path params) (stored r) in
      if bool_decide (current = sha params) then
        (Return tt,
         {| stored := obj_set (path params) (content params) (stored r);
            quota := n;
         unreadable := unreadable r |})
      else (Throw (http_error 409), r)
  end.

Definition client (login : string) : Octokit remote :=
  {| users_getAuthenticated := fun r => (Return login, r);
     repos_createForAuthenticatedUser :=
       fun params r => (Return ("https://github.com/" +:+ login +:+ "/" +:+ name params), r);
     repos_getContent := fun _ _ path r => lookup path r;
     repos_createOrUpdateFileContents := write |}.

(** An empty repository that accepts [n] writes. *)
Definition empty (n : nat) : remote :=
  {| stored := []; quota := n; unreadable := [] |}.

End SampleProvider.

(** The payload of the specification's scenario. *)
Definition scenario : option generated :=
  Some {| components := Some [("Nav.jsx", "...")];
          styles := Some [("index.css", "...")];
          pages := Some [("main.jsx", "...")] |}.

(** The tree [buildAppHierarchy] makes of it. *)
Definition scenario_tree : tree :=
  merged [("Nav.jsx", "...")] [("index.css", "...")] [("main.jsx", "...")].

(** A payload with a page named like the components directory. *)
Definition page_named_components : option generated :=
  Some {| components := Some [("Nav.jsx", "...")];
          styles := Some [];
          pages := Some [("components", "...")] |}.

(** ** Observations on an export *)

(** The content writes among [evs], each with the provider's answer. *)
Definition writes (evs : list event) : list (file_params * outcome unit) :=
  omap (fun ev => match ev with
                  | CreateOrUpdateFileContents params reply => Some (params, reply)
                  | _ => None
                  end) evs.

(** The writes of a walk that meets no failure, in order: path and
    content before encoding. Every directory, the root included, ends
    with a write to the one path [README.md]. *)
Fixpoint planned_writes (fullPath : string) (value : node) {struct value}
    : list (string * string) :=
  match value with
  | File contents => [(fullPath, contents)]
  | Directory directory =>
      (fix loop (entries : tree) : list (string * string) :=
         match entries with
         | [] => []
         | (key, value') :: rest =>
             planned_writes (join_path fullPath key) value' ++ loop rest
         end) directory
      ++ [("README.md", readmeContent)]
  | Other => []
  end.

(** The [sha] an upsert sends, given the answer to the lookup of the
    path: the hash of the file found there, and none when the path holds
    no file (it is absent, a directory listing, or an entry of another
    type) or the entry found carries an empty hash. *)
Inductive upsert_sha : outcome content_data -> option string -> Prop :=
| upsert_update sha :
    sha <> EmptyString -> upsert_sha (Return (ContentEntry "file" sha)) (Some sha)
| upsert_no_hash :
    upsert_sha (Return (ContentEntry "file" EmptyString)) None
| upsert_not_a_file type sha :
    type <> "file" -> upsert_sha (Return (ContentEntry type sha)) None
| upsert_listing :
    upsert_sha (Return ContentArray) None
| upsert_absent e :
    status e = Some 404%Z -> upsert_sha (Throw e) None.

(** The shape of the calls of an export, with the error it ends on, if
    any: lookups and writes come in pairs for one path, the write with
    the [sha] the lookup calls for, and a failed call is the last. *)
Inductive export_log : option thrown -> list event -> Prop :=
| log_end :
    export_log None []
| log_delay ms x evs :
    export_log x evs -> export_log x (SetTimeout ms :: evs)
| log_user login x evs :
    export_log x evs -> export_log x (GetAuthenticated (Return login) :: evs)
| log_user_fails e :
    export_log (Some e) [GetAuthenticated (Throw e)]
| log_repo params url x evs :
    export_log x evs ->
    export_log x (CreateForAuthenticatedUser params (Return url) :: evs)
| log_repo_fails params e :
    export_log (Some e) [CreateForAuthenticatedUser params (Throw e)]
| log_upsert params lookup x evs :
    upsert_sha lookup (sha params) ->
    export_log x evs ->
    export_log x (GetContent (owner params) (repo params) (path params) lookup
                  :: CreateOrUpdateFileContents params (Return tt) :: evs)
| log_write_fails params lookup e :
    upsert_sha lookup (sha params) ->
    export_log (Some e)
      [GetContent (owner params) (repo params) (path params) lookup;
       CreateOrUpdateFileContents params (Throw e)]
| log_lookup_fails owner repo path e :
    status e <> Some 404%Z ->
    export_log (Some e) [GetContent owner repo path (Throw e)].

(** The error a step ended on. *)
Definition thrown_by {A} (x : outcome A) : option thrown :=
  match x with
  | Return _ => None
  | Throw e => Some e
  end.

(** Every run of [m] leaves a log of that shape. *)
Definition well_logged {R A} (m : M R A) : Prop :=
  forall r, export_log (thrown_by (m r).1.1) (m r).2.

(** Path and encoded content of the content writes among [evs]. *)
Definition written (evs : list event) : list (string * string) :=
  map (fun w => (path w.1, content w.1)) (writes evs).

(** Every run of [m] that returns has written [l], in that order. *)
Definition writes_on_return {R A} (m : M R A) (l : list (string * string)) : Prop :=
  forall r a r' evs, m r = (Return a, r', evs) -> written evs = l.

Definition encoded (l : list (string * string)) : list (string * string) :=
  map (fun w => (w.1, Base64.encode w.2)) l.

(** A failed export answers 500 with [success: false]. *)
Definition reports_failure (res : response) : Prop :=
  http_status res = 500%Z /\ field "success" res = Some (JBool false).

(** The export of a tree to the sample provider, by the user [octocat]
    into a repository [demo] that accepts [quota] writes. *)
Definition sample_export (t : tree) (quota : nat) : response * SampleProvider.remote * list event :=
  export (fun _ => SampleProvider.client "octocat")
    {| body_token := Some "gho_token";
       body_projectData := Entries t;
       body_repoName := Some "demo";
       body_description := None |}
    (SampleProvider.empty quota).

(** The same export when the provider cannot read [src/main.jsx]. *)
Definition sample_export_outage (t : tree) : response * SampleProvider.remote * list event :=
  export (fun _ => SampleProvider.client "octocat")
    {| body_token := Some "gho_token";
       body_projectData := Entries t;
       body_repoName := Some "demo";
       body_description := None |}
    {| SampleProvider.stored := [];
       SampleProvider.quota := 100;
       SampleProvider.unreadable := ["src/main.jsx"] |}.

(** The write of the README, as [createFiles] sends it to an empty
    repository. *)
Definition readme_params : file_params :=
  {| owner := "octocat"; repo := "demo"; path := "README.md";
     message := "Add README"; content := Base64.encode readmeContent;
     sha := None |}.

(** ** Observations on sessions and uploads *)

(** The exchange brought no usable access token. *)
Definition exchange_fails (exchange : token_exchange) : Prop :=
  match exchange with
  | ExchangeFails => True
  | ExchangeData access_token => truthy access_token = false
  end.

(** The readings of the clock a request makes. *)
Definition clock_readings (req : request) : list Z :=
  match req with
  | Auth _ _ now swept => [now; swept]
  | AuthStatus _ now => [now]
  | _ => []
  end.

(** The request is served while a session created at [created] has not
    expired. *)
Definition before_expiry (created : Z) (req : request) : Prop :=
  Forall (fun t => (created <= t <= created + TTL)%Z) (clock_readings req).

(** The upload gets as far as the generated payload [appFiles]. *)
Definition delivers (imageUrl : option string) (w : upload_world)
    (appFiles : option generated) : Prop :=
  truthy imageUrl = true /\
  exists length description,
    image w = Resolved (true, length) /\
    (length <= 10 * 1024 * 1024)%Z /\
    imageDesc w = Resolved description /\
    appContent w description = Resolved appFiles.

(** What a successful upload answers. *)
Definition upload_success (projectStructure : tree) : response :=
  json_ok [("success", JBool true);
           ("message", JStr "File processed successfully");
           ("project", JTree projectStructure)].

(** What the status route answers for a pending, an authorized, an
    expired and an unknown session. *)
Definition status_pending : response := json_ok [("authenticated", JBool false)].
Definition status_authorized (tok : string) : response :=
  json_ok [("authenticated", JBool true); ("token", JStr tok)].
Definition status_expired : response :=
  json_status 410 [("authenticated", JBool false); ("error", JStr "Session expired")].
Definition status_not_found : response :=
  json_status 404 [("authenticated", JBool false); ("error", JStr "Session not found")].
Definition status_invalid : response :=
  json_status 400 [("error", JStr "Invalid state parameter")].

(** The two pages of the callback. *)
Definition page_connected : response :=
  {| http_status := 200; sent := Page "GitHub Connected" |}.
Definition page_failed : response :=
  {| http_status := 500; sent := Page "GitHub Connection Failed" |}.

(** A configured backend, thirty-two random bytes, and a world in which
    the upload of a design delivers the payload of the scenario. *)
Definition sample_backend : backend :=
  new_backend (Some "Iv1.0123456789abcdef") (Some "secret").

Definition sample_bytes : list Byte.byte := repeat Byte.xa7 32.

Definition sample_world : upload_world :=
  {| image := Resolved (true, 204800%Z);
     imageDesc := Resolved "A landing page with a navigation bar.";
     appContent := fun _ => Resolved scenario |}.

(** An earlier upload, of another design, with another payload. *)
Definition earlier_world : upload_world :=
  {| image := Resolved (true, 51200%Z);
     imageDesc := Resolved "A single page.";
     appContent := fun _ => Resolved page_named_components |}.

(** A later generation for the same design: the same file names, the
    component rewritten. *)
Definition revised_scenario : option generated :=
  Some {| components := Some [("Nav.jsx", "export default function Nav() {}")];
          styles := Some [("index.css", "...")];
          pages := Some [("main.jsx", "...")] |}.

Definition revised_world : upload_world :=
  {| image := Resolved (true, 204800%Z);
     imageDesc := Resolved "A landing page with a navigation bar.";
     appContent := fun _ => Resolved revised_scenario |}.


Definition sample_url : option string := Some "https://export.canva.com/design.png".

(** ** The image type sniffed for the description request

    [OpenAIService.getImageMimeType]: [buffer[i]] is [undefined] past
    the end of the buffer, and then equal to no byte. *)
Definition byte_at (buffer : list Byte.byte) (i : nat) (b : Byte.byte) : bool :=
  match nth_error buffer i with
  | Some x => Byte.eqb x b
  | None => false
  end.

Definition getImageMimeType (buffer : list Byte.byte) : string :=
  if byte_at buffer 0 Byte.xff && byte_at buffer 1 Byte.xd8 && byte_at buffer 2 Byte.xff
  then "image/jpeg"
  else if byte_at buffer 0 Byte.x89 && byte_at buffer 1 Byte.x50
          && byte_at buffer 2 Byte.x4e && byte_at buffer 3 Byte.x47
  then "image/png"
  else "image/jpeg".

(** ** The calls of a walk, without the provider's answers *)

Inductive call : Type :=
| LookUp (owner repo path : string)
| Put (owner repo path message content : string)
| Wait (ms : Z).

(** The call an event of the walk records; none for the two calls the
    route makes before the walk. *)
Definition call_of (ev : event) : option call :=
  match ev with
  | GetContent owner repo path _ => Some (LookUp owner repo path)
  | CreateOrUpdateFileContents params _ =>
      Some (Put (owner params) (repo params) (path params) (message params) (content params))
  | SetTimeout ms => Some (Wait ms)
  | _ => None
  end.

Definition calls (evs : list event) : list call := omap call_of evs.

(** The lookup and the write of one file. *)
Definition upsert_calls (owner repo path content message : string) : list call :=
  [LookUp owner repo path; Put owner repo path message (Base64.encode content)].

(** The calls [createFiles] makes on a value when no call fails. *)
Fixpoint planned_calls (owner repo fullPath : string) (value : node) {struct value}
    : list call :=
  match value with
  | File contents =>
      upsert_calls owner repo fullPath contents ("Add " +:+ fullPath) ++ [Wait 100]
  | Directory directory =>
      (fix loop (entries : tree) : list call :=
         match entries with
         | [] => []
         | (key, value') :: rest =>
             planned_calls owner repo (join_path fullPath key) value' ++ loop rest
         end) directory
      ++ upsert_calls owner repo "README.md" readmeContent "Add README"
  | Other => []
  end.

(** Every run of [m] makes the calls [l] when it returns, and a
    beginning of [l] when it throws. *)
Definition makes_calls {R A} (m : M R A) (l : list call) : Prop :=
  forall r,
    match (m r).1.1 with
    | Return _ => calls (m r).2 = l
    | Throw _ => calls (m r).2 `prefix_of` l
    end.

(** An export request that passes the route's validation. *)
Definition export_request (token repoName : string) (description : option string)
    (projectData : tree) : export_body :=
  {| body_token := Some token;
     body_projectData := Entries projectData;
     body_repoName := Some repoName;
     body_description := description |}.

(** The parameters of the repository the route creates. *)
Definition new_repo (repoName : string) (description : option string) : repo_params :=
  {| name := repoName;
     description := if truthy description then default EmptyString description
                    else "Generated from Canva design";
     private := false;
     auto_init := false |}.

(** What the route answers when the export went through. *)
Definition export_success (html_url : string) : response :=
  json_ok [("success", JBool true);
           ("repoUrl", JStr html_url);
           ("message", JStr "Project exported successfully to GitHub")].

(** The pauses among [evs], in milliseconds. *)
Definition waits (evs : list event) : list Z :=
  omap (fun ev => match ev with SetTimeout ms => Some ms | _ => None end) evs.

(** The walk of the route, after the validation of the request. *)
Definition export_steps {R} (octokit : Octokit R) (repoName : string)
    (description : option string) (projectData : tree) : M R response :=
  login ← getAuthenticated octokit;
  html_url ← createForAuthenticatedUser octokit (new_repo repoName description);
  createFiles octokit login repoName EmptyString projectData;;
  ret (export_success html_url).

(** ** The client: connecting to GitHub

    The state of the app component and its polling of the status route
    ([connectToGitHub], [pollForGitHubAuth]). *)
Record client : Type := {
  preview : bool;
  isGitHubConnected : bool;
  isConnecting : bool;
  isGenerating : bool;
  isExporting : bool;
  githubToken : option string;
}.

Definition setIsConnecting (v : bool) (c : client) : client :=
  {| preview := preview c; isGitHubConnected := isGitHubConnected c;
     isConnecting := v; isGenerating := isGenerating c;
     isExporting := isExporting c; githubToken := githubToken c |}.

(** [setIsGitHubConnected(true); setGitHubToken(data.token)] *)
Definition setConnected (tok : option string) (c : client) : client :=
  {| preview := preview c; isGitHubConnected := true;
     isConnecting := isConnecting c; isGenerating := isGenerating c;
     isExporting := isExporting c; githubToken := tok |}.

(** [response.ok]: a status from 200 to 299. *)
Definition response_ok (res : response) : bool :=
  (200 <=? http_status res)%Z && (http_status res <=? 299)%Z.

(** Whether a field of the decoded body is truthy. *)
Definition json_truthy (j : option json) : bool :=
  match j with
  | Some (JBool b) => b
  | Some (JStr s) => negb (String.eqb s EmptyString)
  | Some (JTree _) => true
  | None => false
  end.

(** [data.token], a string when the route sent one. *)
Definition json_string (j : option json) : option string :=
  match j with
  | Some (JStr s) => Some s
  | _ => None
  end.

(** One turn of the polling loop as the backend sees it: the requests
    it serves before the status request arrives, and the reading of its
    clock when it does; [None] when the request does not get through
    and [fetch] throws. *)
Record attempt : Type := {
  meanwhile : list request;
  reached : option Z;
}.

(** [checkAuth()]: the backend and the client afterwards, and the
    result. [state] is the [state] of the request body, [None] when
    the caller passed [undefined]. *)
Definition checkAuth (state : option string) (reached : option Z) (b : backend) (c : client)
    : backend * client * bool :=
  match reached with
  | Some now =>
      let '(b', res) := auth_status state now b in
      if response_ok res && json_truthy (field "authenticated" res) then
        (b', setConnected (json_string (field "token" res)) c, true)
      else (b', c, false)
  | None => (b, c, false)
  end.

Definition maxAttempts : nat := 30.

(** The loop of [poll], [fuel] being [maxAttempts - attempts]; the
    last component is the number of status requests that got
    through. *)
Fixpoint poll_loop (fuel attempts : nat) (state : option string) (schedule : nat -> attempt)
    (b : backend) (c : client) : backend * client * nat :=
  match fuel with
  | O => (b, c, O)
  | S fuel' =>
      let a := schedule attempts in
      let '(b', c', isAuthenticated) :=
        checkAuth state (reached a) (serve b (meanwhile a)) c in
      let sent := match reached a with Some _ => 1 | None => 0 end in
      if isAuthenticated then (b', c', sent)
      else
        let '(b'', c'', n) := poll_loop fuel' (S attempts) state schedule b' c' in
        (b'', c'', sent + n)
  end.

(** [pollForGitHubAuth(state)] *)
Definition pollForGitHubAuth (state : option string) (schedule : nat -> attempt)
    (b : backend) (c : client) : backend * client * nat :=
  let '(b', c', n) := poll_loop maxAttempts 0 state schedule b c in
  (b', setIsConnecting false c', n).

(** [connectToGitHub()]: [auth_request] is the auth request as the
    backend receives it ([None] when it does not get through),
    [opened] whether the browser window could be opened. The boolean
    of the result tells whether the promise resolved. *)
Definition connectToGitHub
    (auth_request : option (string * list Byte.byte * Z * Z)) (opened : bool)
    (schedule : nat -> attempt) (b : backend) (c : client)
    : backend * client * bool :=
  if isConnecting c then (b, c, true)
  else
    let c1 := setIsConnecting true c in
    match auth_request with
    | None => (b, setIsConnecting false c1, false)
    | Some (redirect_uri, randomBytes, now, swept) =>
        let '(b1, res) := auth redirect_uri randomBytes now swept b in
        if negb (response_ok res) then (b1, setIsConnecting false c1, false)
        else if negb opened then (b1, setIsConnecting false c1, false)
        else
          let '(b2, c2, _) :=
            pollForGitHubAuth (json_string (field "state" res)) schedule b1 c1 in
          (b2, setIsConnecting false c2, true)
    end.

(** The value of a hexadecimal digit of [toHex]; used to tell state
    tokens apart. *)
Definition hex_value (c : ascii) : N :=
  match String.index 0 (String c EmptyString) "0123456789abcdef" with
  | Some i => N.of_nat i
  | None => 0
  end.

(** The requests of [reqs] are no uploads. *)
Definition no_upload (req : request) : Prop :=
  match req with
  | Upload _ _ => False
  | _ => True
  end.

Definition too_large : response :=
  json_status 400 [("error", JStr "File too large. Max. size is 10MB")].

(** How many of the [fuel] attempts from [attempts] on get through to
    the backend. *)
Fixpoint reached_among (schedule : nat -> attempt) (attempts fuel : nat) : nat :=
  match fuel with
  | O => O
  | S fuel' =>
      match reached (schedule attempts) with Some _ => 1 | None => 0 end
      + reached_among schedule (S attempts) fuel'
  end.

(** A connection in which the user authorizes the app between the
    second and the third poll. *)
Definition sample_schedule : nat -> attempt :=
  fun i =>
    if Nat.eqb i 2 then
      {| meanwhile :=
           [Callback (Some "c0de") (Some (toHex sample_bytes)) (ExchangeData (Some "gho_abc"))];
         reached := Some 25000%Z |}
    else {| meanwhile := []; reached := Some (10000 * Z.of_nat i)%Z |}.

Definition new_client : client :=
  {| preview := true; isGitHubConnected := false; isConnecting := false;
     isGenerating := false; isExporting := false; githubToken := None |}.

(** * The texts and encodings, checked on examples *)

Example skeleton_text_lengths :
  String.length AppSchema.package_json = 838 /\
  String.length AppSchema.vite_config_js = 554 /\
  String.length AppSchema.index_html = 607 /\
  String.length readmeContent = 269.
Proof. by vm_compute. Qed.

Example base64_padding :
  Base64.encode "Man" = "TWFu" /\ Base64.encode "Ma" = "TWE=" /\ Base64.encode "M" = "TQ==".
Proof. by vm_compute. Qed.

Example toHex_bytes : toHex [Byte.x00; Byte.xff; Byte.x1a] = "00ff1a".
Proof. reflexivity. Qed.

Example join_path_root_and_nested :
  join_path EmptyString "src" = "src" /\ join_path "src" "main.jsx" = "src/main.jsx".
Proof. done. Qed.

(** * Properties of object assignment *)

Section JsObjectFacts.
Context {V : Type}.
Implicit Types (o : list (string * V)) (es : list (string * V)).

Lemma obj_get_set_eq k v o : obj_get k (obj_set k v o) = Some v.
Proof.
  induction o as [|[k' v'] o IH]; simpl.
  - by rewrite String.eqb_refl.
  - destruct (String.eqb_spec k' k) as [->|Hne]; simpl.
    + by rewrite String.eqb_refl.
    + by apply String.eqb_neq in Hne as ->.
Qed.

Lemma obj_get_set_ne k k' v o :
  k <> k' -> obj_get k' (obj_set k v o) = obj_get k' o.
Proof.
  intros Hne. induction o as [|[k1 v1] o IH]; simpl.
  - by apply String.eqb_neq in Hne as ->.
  - destruct (String.eqb_spec k1 k) as [->|Hk]; simpl.
    + by apply String.eqb_neq in Hne as ->.
    + by rewrite IH.
Qed.

Lemma obj_set_set k v1 v2 o : obj_set k v2 (obj_set k v1 o) = obj_set k v2 o.
Proof.
  induction o as [|[k' v'] o IH]; simpl.
  - by rewrite String.eqb_refl.
  - destruct (String.eqb_spec k' k) as [->|Hne]; simpl.
    + by rewrite String.eqb_refl.
    + apply String.eqb_neq in Hne as ->. by rewrite IH.
Qed.

Lemma obj_set_id k v o : obj_get k o = Some v -> obj_set k v o = o.
Proof.
  induction o as [|[k' v'] o IH]; simpl; [done|].
  destruct (String.eqb k' k); [congruence|].
  intros H. by rewrite IH.
Qed.

Lemma obj_get_In k v o : obj_get k o = Some v -> In (k, v) o.
Proof.
  induction o as [|[k' v'] o IH]; simpl; [done|].
  destruct (String.eqb_spec k' k) as [->|Hne].
  - intros [= ->]. by left.
  - intros H. right. by apply IH.
Qed.

Lemma obj_get_is_Some k o : In k (keys o) <-> is_Some (obj_get k o).
Proof.
  induction o as [|[k' v'] o IH]; simpl.
  - split; [done|]. by intros [? ?].
  - destruct (String.eqb_spec k' k) as [->|Hne].
    + split; [eauto|]. by left.
    + rewrite <- IH. split; [|by right]. by intros [?|?].
Qed.

Lemma keys_obj_set_present k v o : In k (keys o) -> keys (obj_set k v o) = keys o.
Proof.
  induction o as [|[k' v'] o IH]; simpl; [done|].
  destruct (String.eqb_spec k' k) as [->|Hne]; simpl; [done|].
  intros [?|Hin]; [done|]. by rewrite IH.
Qed.

Lemma keys_obj_set_new k v o : ~ In k (keys o) -> keys (obj_set k v o) = keys o ++ [k].
Proof.
  induction o as [|[k' v'] o IH]; simpl; [done|].
  intros Hn. destruct (String.eqb_spec k' k) as [->|Hne]; simpl.
  - exfalso. apply Hn. by left.
  - rewrite IH; [done|]. intros ?. apply Hn. by right.
Qed.

Lemma In_keys_obj_set k k' v o :
  In k' (keys (obj_set k v o)) <-> k' = k \/ In k' (keys o).
Proof.
  rewrite !obj_get_is_Some.
  destruct (decide (k = k')) as [->|Hne].
  - rewrite obj_get_set_eq. split; [by left | eauto].
  - rewrite obj_get_set_ne by done. split; [by right|]. by intros [->|?].
Qed.

(** An assignment never introduces a second property of the same name. *)
Lemma NoDup_keys_obj_set k v o : NoDup (keys o) -> NoDup (keys (obj_set k v o)).
Proof.
  intros Hnd. destruct (in_dec String.string_dec k (keys o)) as [Hin|Hnin].
  - by rewrite keys_obj_set_present.
  - rewrite keys_obj_set_new by done.
    apply NoDup_app. split_and!; [done| |apply NoDup_singleton].
    intros x Hx ->%list_elem_of_singleton. apply Hnin. by apply list_elem_of_In.
Qed.

Lemma In_obj_set k v kv o : In kv (obj_set k v o) -> kv = (k, v) \/ In kv o.
Proof.
  induction o as [|[k' v'] o IH]; simpl.
  - intros [<-|[]]. by left.
  - destruct (String.eqb_spec k' k) as [->|Hne]; simpl.
    + intros [<-|?]; [by left | by right; right].
    + intros [<-|?]; [by right; left|]. destruct IH as [?|?]; auto.
Qed.

(** Two assignments commute as soon as one of the names is there. *)
Lemma obj_set_comm k1 v1 k2 v2 o :
  k1 <> k2 -> In k1 (keys o) ->
  obj_set k1 v1 (obj_set k2 v2 o) = obj_set k2 v2 (obj_set k1 v1 o).
Proof.
  intros Hne. induction o as [|[k' v'] o IH]; simpl; [done|].
  intros Hin.
  destruct (String.eqb_spec k' k1) as [->|H1]; simpl.
  - apply String.eqb_neq in Hne as Hb. rewrite Hb. simpl.
    by rewrite String.eqb_refl.
  - destruct (String.eqb_spec k' k2) as [->|H2]; simpl.
    + by apply String.eqb_neq in H1 as ->.
    + rewrite (proj2 (String.eqb_neq _ _) H1).
      rewrite IH; [done|]. destruct Hin as [?|?]; [congruence|done].
Qed.

Lemma set_all_cons k v es o : set_all ((k, v) :: es) o = set_all es (obj_set k v o).
Proof. done. Qed.

Lemma In_keys_set_all k es o :
  In k (keys (set_all es o)) <-> In k (keys es) \/ In k (keys o).
Proof.
  revert o. induction es as [|[k' v'] es IH]; intros o.
  - simpl. split; [by right | by intros [[]|?]].
  - rewrite set_all_cons, IH, In_keys_obj_set. simpl. intuition congruence.
Qed.

Lemma NoDup_keys_set_all es o : NoDup (keys o) -> NoDup (keys (set_all es o)).
Proof.
  revert o. induction es as [|[k v] es IH]; intros o Hnd; [done|].
  rewrite set_all_cons. by apply IH, NoDup_keys_obj_set.
Qed.

Lemma In_set_all kv es o : In kv (set_all es o) -> In kv es \/ In kv o.
Proof.
  revert o. induction es as [|[k v] es IH]; intros o; [by right|].
  rewrite set_all_cons. intros [?|[->|?]%In_obj_set]%IH; simpl; auto.
Qed.

Lemma obj_get_set_all_other k es o :
  ~ In k (keys es) -> obj_get k (set_all es o) = obj_get k o.
Proof.
  revert o. induction es as [|[k' v'] es IH]; intros o Hn; [done|].
  rewrite set_all_cons, IH, obj_get_set_ne; [done| |]; intros ?; apply Hn; simpl; auto.
Qed.

(** With distinct names, every pair of [es] is what [set_all] leaves
    under its name. *)
Lemma obj_get_set_all_In k v es o :
  NoDup (keys es) -> In (k, v) es -> obj_get k (set_all es o) = Some v.
Proof.
  revert o. induction es as [|[k' v'] es IH]; intros o Hnd Hin; [done|].
  simpl in Hnd. apply NoDup_cons in Hnd as [Hk Hnd].
  rewrite set_all_cons. destruct Hin as [[= -> ->]|Hin].
  - rewrite obj_get_set_all_other, obj_get_set_eq; [done|].
    intros ?. apply Hk. by apply list_elem_of_In.
  - by apply IH.
Qed.

Lemma set_all_obj_set_other k v es o :
  ~ In k (keys es) -> In k (keys o) ->
  obj_set k v (set_all es o) = set_all es (obj_set k v o).
Proof.
  revert o. induction es as [|[k' v'] es IH]; intros o Hn Hin; [done|].
  rewrite !set_all_cons, IH.
  - rewrite (obj_set_comm k v k' v'); [done| |done].
    intros ->. apply Hn. by left.
  - intros ?. apply Hn. by right.
  - apply In_keys_obj_set. by right.
Qed.

(** A value that a later assignment of the loop overwrites is lost. *)
Lemma set_all_overwrites k v es o :
  In k (keys es) -> In k (keys o) ->
  set_all es (obj_set k v o) = set_all es o.
Proof.
  revert o. induction es as [|[k' v'] es IH]; intros o Hes Hin; [done|].
  rewrite !set_all_cons. destruct (decide (k' = k)) as [->|Hne].
  - by rewrite obj_set_set.
  - rewrite <- (obj_set_comm k v k' v') by done.
    apply IH; [|apply In_keys_obj_set; by right].
    simpl in Hes. destruct Hes as [?|?]; [congruence|done].
Qed.

(** Running the same loop of assignments a second time changes
    nothing. *)
Lemma set_all_idem es o : set_all es (set_all es o) = set_all es o.
Proof.
  revert o. induction es as [|[k v] es IH]; intros o; [done|].
  rewrite !set_all_cons.
  set (o' := obj_set k v o).
  assert (Hk : In k (keys o')) by (apply In_keys_obj_set; by left).
  destruct (in_dec String.string_dec k (keys es)) as [Hin|Hnin].
  - rewrite set_all_overwrites; [apply IH|done|].
    apply In_keys_set_all. by right.
  - rewrite set_all_obj_set_other by (done || (apply In_keys_set_all; by right)).
    unfold o' at 1. by rewrite obj_set_set, IH.
Qed.
End JsObjectFacts.

(** * The merge *)

Section MergeFacts.

Lemma assign_component_under : assign_component = assign_under "components".
Proof. reflexivity. Qed.

Lemma assign_style_under : assign_style = assign_under "styles".
Proof. reflexivity. Qed.

Lemma keys_as_files sec : keys (as_files sec) = keys sec.
Proof. unfold keys, as_files. rewrite map_map. by apply map_ext. Qed.

Lemma In_as_files file value sec :
  In (file, value) (as_files sec) <-> exists code, value = File code /\ In (file, code) sec.
Proof.
  unfold as_files. rewrite in_map_iff. split.
  - intros ([f c] & [= <- <-] & Hin). eauto.
  - intros (code & -> & Hin). by exists (file, code).
Qed.

Lemma assign_under_eq name t file code src_dir sub_dir :
  obj_get "src" t = Some (Directory src_dir) ->
  obj_get name src_dir = Some (Directory sub_dir) ->
  assign_under name t file code =
    Some (obj_set "src"
            (Directory (obj_set name
                          (Directory (obj_set file (File code) sub_dir)) src_dir))
            t).
Proof. intros Hsrc Hsub. unfold assign_under. rewrite Hsrc. simpl. by rewrite Hsub. Qed.

Lemma assign_page_eq t file code src_dir :
  obj_get "src" t = Some (Directory src_dir) ->
  assign_page t file code =
    Some (obj_set "src" (Directory (obj_set file (File code) src_dir)) t).
Proof. intros Hsrc. unfold assign_page. by rewrite Hsrc. Qed.

(** The loop over a section assigned below [src.directory[name]]
    leaves the tree as it was, but for that directory, which has
    received every assignment. *)
Lemma for_entries_under name es t src_dir sub_dir :
  obj_get "src" t = Some (Directory src_dir) ->
  obj_get name src_dir = Some (Directory sub_dir) ->
  for_entries (assign_under name) es t =
    Some (obj_set "src"
            (Directory (obj_set name (Directory (set_all (as_files es) sub_dir)) src_dir))
            t).
Proof.
  revert t src_dir sub_dir.
  induction es as [|[file code] es IH]; intros t src_dir sub_dir Hsrc Hsub.
  - simpl. by rewrite (obj_set_id name), (obj_set_id "src").
  - cbn [for_entries]. rewrite (assign_under_eq _ _ _ _ src_dir sub_dir) by done.
    simpl. erewrite IH; [|apply obj_get_set_eq|apply obj_get_set_eq].
    by rewrite !obj_set_set.
Qed.

Lemma for_entries_page es t src_dir :
  obj_get "src" t = Some (Directory src_dir) ->
  for_entries assign_page es t =
    Some (obj_set "src" (Directory (set_all (as_files es) src_dir)) t).
Proof.
  revert t src_dir.
  induction es as [|[file code] es IH]; intros t src_dir Hsrc.
  - simpl. by rewrite (obj_set_id "src").
  - cbn [for_entries]. rewrite (assign_page_eq _ _ _ src_dir) by done.
    simpl. erewrite IH; [|apply obj_get_set_eq].
    by rewrite obj_set_set.
Qed.

Lemma merge_section_under name sec t src_dir sub_dir :
  obj_get "src" t = Some (Directory src_dir) ->
  obj_get name src_dir = Some (Directory sub_dir) ->
  merge_section (assign_under name) sec t =
    Some (obj_set "src"
            (Directory (obj_set name
                          (Directory (set_all (as_files (entries_of sec)) sub_dir)) src_dir))
            t).
Proof.
  intros Hsrc Hsub. destruct sec as [es|]; simpl.
  - by apply for_entries_under.
  - by rewrite (obj_set_id name), (obj_set_id "src").
Qed.

Lemma merge_section_page sec t src_dir :
  obj_get "src" t = Some (Directory src_dir) ->
  merge_section assign_page sec t =
    Some (obj_set "src" (Directory (set_all (as_files (entries_of sec)) src_dir)) t).
Proof.
  intros Hsrc. destruct sec as [es|]; simpl.
  - by apply for_entries_page.
  - by rewrite (obj_set_id "src").
Qed.

(** The merge on any tree that has the two directories under [src]. *)
Lemma mergeFiles_shape t src_dir comp_dir sty_dir appFiles :
  obj_get "src" t = Some (Directory src_dir) ->
  obj_get "components" src_dir = Some (Directory comp_dir) ->
  obj_get "styles" src_dir = Some (Directory sty_dir) ->
  mergeFiles t appFiles =
    Some (obj_set "src"
            (Directory
               (set_all (as_files (entries_of (pages_of appFiles)))
                  (obj_set "styles"
                     (Directory (set_all (as_files (entries_of (styles_of appFiles))) sty_dir))
                     (obj_set "components"
                        (Directory (set_all (as_files (entries_of (components_of appFiles))) comp_dir))
                        src_dir))))
            t).
Proof.
  intros Hsrc Hcomp Hsty. unfold mergeFiles.
  rewrite assign_component_under, assign_style_under.
  rewrite (merge_section_under "components" _ t src_dir comp_dir) by done.
  simpl.
  erewrite merge_section_under;
    [|apply obj_get_set_eq|by rewrite obj_get_set_ne].
  simpl.
  erewrite merge_section_page; [|apply obj_get_set_eq].
  by rewrite !obj_set_set.
Qed.

(** On the fresh skeleton the merge always succeeds, with the tree
    [merged]. *)
Lemma buildAppHierarchy_merged appFiles :
  buildAppHierarchy appFiles =
    Some (merged (entries_of (components_of appFiles))
                 (entries_of (styles_of appFiles))
                 (entries_of (pages_of appFiles))).
Proof.
  unfold buildAppHierarchy.
  by rewrite (mergeFiles_shape AppSchema.getAppSchema
                [("components", Directory []); ("styles", Directory [])] [] []).
Qed.

End MergeFacts.

(** Closed goals on concrete names, settled by evaluation. *)
Ltac by_evaluation :=
  lazymatch goal with
  | |- ?P => apply (@bool_decide_unpack P _); vm_compute; exact I
  end.

Section MergeTheorems.

Lemma unique_names_Directory d :
  unique_names (Directory d) <->
  NoDup (keys d) /\ forall name value, In (name, value) d -> unique_names value.
Proof.
  cbn [unique_names]. apply and_iff_compat_l.
  induction d as [|[k v] d IH].
  - split; [by intros _ ? ? []|done].
  - rewrite IH. split.
    + intros [Hv Hd] name value [[= <- <-]|Hin]; eauto.
    + intros H. split; [apply (H k); by left|].
      intros name value Hin. apply (H name). by right.
Qed.

Lemma unique_names_set_all_files sec d :
  unique_names (Directory d) -> unique_names (Directory (set_all (as_files sec) d)).
Proof.
  rewrite !unique_names_Directory. intros [Hnd Hall]. split.
  - by apply NoDup_keys_set_all.
  - intros name value [Hin|Hin]%In_set_all; [|by eapply Hall].
    by apply In_as_files in Hin as (code & -> & _).
Qed.

Lemma unique_names_merged comps stys pgs : unique_names (Directory (merged comps stys pgs)).
Proof.
  apply unique_names_Directory. split.
  - by_evaluation.
  - intros name value Hin. cbn in Hin.
    destruct Hin as [[= <- <-]|[[= <- <-]|[[= <- <-]|[[= <- <-]|[]]]]]; [done..|].
    apply unique_names_set_all_files, unique_names_Directory. split.
    + by_evaluation.
    + intros name value [[= <- <-]|[[= <- <-]|[]]];
        apply unique_names_set_all_files, unique_names_Directory;
        (split; [apply NoDup_nil_2 | by intros ? ? []]).
Qed.

(** Where the entries of a payload are in [merged], when the names of
    each section are distinct and no page took the place of a
    directory. *)
Lemma sections_placed_merged appFiles :
  distinct_names appFiles ->
  ~ reserved_page appFiles ->
  sections_placed appFiles
    (merged (entries_of (components_of appFiles))
            (entries_of (styles_of appFiles))
            (entries_of (pages_of appFiles))).
Proof.
  intros (HC & HS & HP) Hres.
  set (C := entries_of (components_of appFiles)) in *.
  set (S := entries_of (styles_of appFiles)) in *.
  set (P := entries_of (pages_of appFiles)) in *.
  assert (Hc : ~ In "components" (keys (as_files P))).
  { rewrite keys_as_files. intros ?. apply Hres. by left. }
  assert (Hs : ~ In "styles" (keys (as_files P))).
  { rewrite keys_as_files. intros ?. apply Hres. by right. }
  unfold sections_placed. fold C S P. split_and!; try reflexivity.
  - intros file code Hin. cbn.
    rewrite obj_get_set_all_other by done. cbn.
    apply obj_get_set_all_In; [by rewrite keys_as_files|].
    apply In_as_files. eauto.
  - intros file code Hin. cbn.
    rewrite obj_get_set_all_other by done. cbn.
    apply obj_get_set_all_In; [by rewrite keys_as_files|].
    apply In_as_files. eauto.
  - intros file code Hin. cbn.
    apply obj_get_set_all_In; [by rewrite keys_as_files|].
    apply In_as_files. eauto.
Qed.

(** C5, counterexample. The three name sets of
    [page_named_components] are pairwise disjoint, yet the component
    [Nav.jsx] is not in the merged tree: the page took the place of
    the components directory. *)
Lemma page_named_components_not_placed :
  distinct_names page_named_components /\
  pairwise_disjoint page_named_components /\
  ~ exists t, buildAppHierarchy page_named_components = Some t /\
              sections_placed page_named_components t.
Proof.
  split_and!.
  - split_and!; by_evaluation.
  - unfold pairwise_disjoint, disjoint_names. cbn.
    split_and!; intros file H1 H2; intuition (subst; try discriminate).
  - intros (t & [= <-] & Hcomp & _).
    specialize (Hcomp "Nav.jsx" "..." (or_introl eq_refl)). discriminate Hcomp.
Qed.

(** C5, as amended. For every payload whose three sections have
    pairwise disjoint names and in which no page is named
    [components] or [styles], the merged tree holds every component
    under [src/components], every style under [src/styles] and every
    page directly under [src], and [package.json], [vite.config.js]
    and [index.html] keep the contents of the skeleton. *)
Theorem merge_places_sections appFiles :
  distinct_names appFiles ->
  pairwise_disjoint appFiles ->
  ~ reserved_page appFiles ->
  exists t, buildAppHierarchy appFiles = Some t /\ sections_placed appFiles t.
Proof.
  intros Hnames _ Hres. eexists. split; [apply buildAppHierarchy_merged|].
  by apply sections_placed_merged.
Qed.

Lemma merge_places_sections_scenario :
  exists t, buildAppHierarchy scenario = Some t /\ sections_placed scenario t.
Proof.
  apply (merge_places_sections scenario).
  - split_and!; by_evaluation.
  - unfold pairwise_disjoint, disjoint_names. cbn.
    split_and!; intros file H1 H2; intuition (subst; try discriminate).
  - unfold reserved_page. cbn. intros [[?|[]]|[?|[]]]; discriminate.
Defined.

End MergeTheorems.

(** * The export *)

(** Induction on values, with the hypothesis for every entry of a
    directory. *)
Lemma node_ind' (P : node -> Prop) :
  (forall contents, P (File contents)) ->
  (forall directory, Forall (fun entry => P entry.2) directory -> P (Directory directory)) ->
  P Other ->
  forall value, P value.
Proof.
  intros HF HD HO. fix IH 1. intros [contents|directory|].
  - apply HF.
  - apply HD. induction directory as [|[key value] rest IHrest].
    + constructor.
    + constructor; [apply IH | apply IHrest].
  - apply HO.
Qed.

Section ExportFacts.
Context {R : Type} (octokit : Octokit R).
Implicit Types (r : R) (evs : list event).

Lemma export_log_app x evs1 evs2 :
  export_log None evs1 -> export_log x evs2 -> export_log x (evs1 ++ evs2).
Proof.
  intros H1 H2. remember None as none eqn:Hn.
  induction H1; try discriminate; simpl; try (constructor; auto); done.
Qed.

(** *** How the steps compose *)

Lemma bind_unfold {A B} (m : M R A) (k : A -> M R B) r :
  (m ≫= k) r =
    match m r with
    | (Return a, r', evs) => let '(b, r'', evs') := k a r' in (b, r'', evs ++ evs')
    | (Throw e, r', evs) => (Throw e, r', evs)
    end.
Proof. reflexivity. Qed.

Lemma bind_Return_inv {A B} (m : M R A) (k : A -> M R B) r b r'' evs :
  (m ≫= k) r = (Return b, r'', evs) ->
  exists a r' evs1 evs2,
    m r = (Return a, r', evs1) /\ k a r' = (Return b, r'', evs2) /\ evs = evs1 ++ evs2.
Proof.
  rewrite bind_unfold. destruct (m r) as [[[a|e] r'] evs1]; [|done].
  destruct (k a r') as [[y r2] evs2] eqn:Hk. intros [= -> -> <-].
  by exists a, r', evs1, evs2.
Qed.

Lemma well_logged_ret {A} (a : A) : well_logged (R:=R) (ret a).
Proof. intros r. constructor. Qed.

Lemma well_logged_bind {A B} (m : M R A) (k : A -> M R B) :
  well_logged m -> (forall a, well_logged (k a)) -> well_logged (m ≫= k).
Proof.
  intros Hm Hk r. rewrite bind_unfold. specialize (Hm r).
  destruct (m r) as [[[a|e] r'] evs1]; simpl in *; [|done].
  specialize (Hk a r'). destruct (k a r') as [[y r2] evs2]; simpl in *.
  by apply export_log_app.
Qed.

Lemma well_logged_setTimeout ms : well_logged (R:=R) (setTimeout ms).
Proof. intros r. repeat constructor. Qed.

Lemma well_logged_getAuthenticated : well_logged (getAuthenticated octokit).
Proof.
  intros r. unfold getAuthenticated.
  destruct (users_getAuthenticated octokit r) as [[login|e] r']; repeat constructor.
Qed.

Lemma well_logged_createForAuthenticatedUser params :
  well_logged (createForAuthenticatedUser octokit params).
Proof.
  intros r. unfold createForAuthenticatedUser.
  destruct (repos_createForAuthenticatedUser octokit params r) as [[url|e] r'];
    repeat constructor.
Qed.

Lemma upsert_sha_found data : upsert_sha (Return data) (sha_param (existing_sha data)).
Proof.
  destruct data as [|type sha]; simpl; [constructor|].
  destruct (String.eqb_spec type "file") as [->|Hne]; simpl.
  - destruct (String.eqb_spec sha EmptyString) as [->|Hsha]; by constructor.
  - by constructor.
Qed.

(** *** The upsert *)

(** The calls of one [createOrUpdateFile], by the answer to its
    lookup. *)
Lemma createOrUpdateFile_run owner repo path content message r :
  let lookup := repos_getContent octokit owner repo path r in
  let params sha :=
    {| owner := owner; repo := repo; path := path; message := message;
       content := Base64.encode content; sha := sha |} in
  let write sha :=
    let reply := repos_createOrUpdateFileContents octokit (params sha) lookup.2 in
    (reply.1, reply.2,
     [GetContent owner repo path lookup.1;
      CreateOrUpdateFileContents (params sha) reply.1]) in
  createOrUpdateFile octokit owner repo path content message r =
    match lookup.1 with
    | Return existingFile => write (sha_param (existing_sha existingFile))
    | Throw error =>
        if bool_decide (status error = Some 404%Z) then write None
        else (Throw error, lookup.2, [GetContent owner repo path (Throw error)])
    end.
Proof.
  cbv zeta. unfold createOrUpdateFile. rewrite bind_unfold.
  unfold try_catch. rewrite bind_unfold. unfold getContent, createOrUpdateFileContents.
  destruct (repos_getContent octokit owner repo path r) as [[data|e] r1]; simpl.
  - by destruct (repos_createOrUpdateFileContents octokit _ r1) as [reply r2].
  - case_bool_decide; simpl; [|done].
    by destruct (repos_createOrUpdateFileContents octokit _ r1) as [reply r2].
Qed.

Lemma well_logged_createOrUpdateFile owner repo path content message :
  well_logged (createOrUpdateFile octokit owner repo path content message).
Proof.
  intros r. rewrite createOrUpdateFile_run. cbv zeta.
  destruct (repos_getContent octokit owner repo path r) as [[data|e] r1]; simpl.
  - pose proof (upsert_sha_found data) as Hsha.
    destruct (repos_createOrUpdateFileContents octokit _ r1) as [[[]|e'] r2]; simpl.
    + by apply (log_upsert {| sha := sha_param (existing_sha data) |}); [|constructor].
    + by apply (log_write_fails {| sha := sha_param (existing_sha data) |}).
  - case_bool_decide as H404; simpl; [|by constructor].
    destruct (repos_createOrUpdateFileContents octokit _ r1) as [[[]|e'] r2]; simpl.
    + apply (log_upsert {| sha := None |}); by constructor.
    + apply (log_write_fails {| sha := None |}); by constructor.
Qed.

Lemma writes_createOrUpdateFile owner repo path content message :
  writes_on_return (createOrUpdateFile octokit owner repo path content message)
    [(path, Base64.encode content)].
Proof.
  intros r a r' evs. rewrite createOrUpdateFile_run. cbv zeta.
  destruct (repos_getContent octokit owner repo path r) as [[data|e] r1]; simpl.
  - by intros [= _ _ <-].
  - case_bool_decide; simpl; [|done]. by intros [= _ _ <-].
Qed.

Lemma writes_ret {A} (a : A) : writes_on_return (R:=R) (ret a) [].
Proof. by intros r a' r' evs [= _ _ <-]. Qed.

Lemma writes_setTimeout ms : writes_on_return (R:=R) (setTimeout ms) [].
Proof. by intros r a' r' evs [= _ _ <-]. Qed.

Lemma written_app evs1 evs2 : written (evs1 ++ evs2) = written evs1 ++ written evs2.
Proof. unfold written, writes. by rewrite omap_app, map_app. Qed.

Lemma writes_bind {A B} (m : M R A) (k : A -> M R B) l1 l2 :
  writes_on_return m l1 -> (forall a, writes_on_return (k a) l2) ->
  writes_on_return (m ≫= k) (l1 ++ l2).
Proof.
  intros Hm Hk r b r'' evs (a & r' & evs1 & evs2 & H1 & H2 & ->)%bind_Return_inv.
  rewrite written_app. f_equal; [by eapply Hm | by eapply Hk].
Qed.

(** *** The walk *)

(** [createFiles] as the source has it: the loop over the entries,
    then the README. *)
Lemma createFiles_unfold owner repo currentPath directoryObj :
  createFiles octokit owner repo currentPath directoryObj =
    (for_each_entry
       (fun key value =>
          let fullPath := join_path currentPath key in
          match value with
          | File contents =>
              createOrUpdateFile octokit owner repo fullPath contents ("Add " +:+ fullPath);;
              setTimeout 100
          | Directory directory => createFiles octokit owner repo fullPath directory
          | Other => ret tt
          end)
       directoryObj;;
     createOrUpdateFile octokit owner repo "README.md" readmeContent "Add README").
Proof.
  unfold createFiles. cbn [visit]. f_equal.
  induction directoryObj as [|[key value] rest IH]; [done|].
  cbn [for_each_entry]. rewrite <- IH. by destruct value.
Qed.

Lemma visit_Directory owner repo fullPath directory :
  visit octokit owner repo fullPath (Directory directory) =
    (for_each_entry (fun key value => visit octokit owner repo (join_path fullPath key) value)
       directory;;
     createOrUpdateFile octokit owner repo "README.md" readmeContent "Add README").
Proof.
  cbn [visit]. f_equal.
  induction directory as [|[key value] rest IH]; [done|].
  cbn [for_each_entry]. by rewrite <- IH.
Qed.

Lemma well_logged_for_each_entry (body : string -> node -> M R unit) entries :
  Forall (fun entry => forall key, well_logged (body key entry.2)) entries ->
  well_logged (for_each_entry body entries).
Proof.
  induction 1 as [|[key value] rest Hv _ IH]; [apply well_logged_ret|].
  cbn [for_each_entry]. apply well_logged_bind; [apply Hv | done].
Qed.

Lemma well_logged_visit owner repo fullPath value :
  well_logged (visit octokit owner repo fullPath value).
Proof.
  revert fullPath. induction value as [contents|directory IH|] using node_ind';
    intros fullPath.
  - cbn [visit]. apply well_logged_bind; [apply well_logged_createOrUpdateFile|].
    intros _. apply well_logged_setTimeout.
  - rewrite visit_Directory. apply well_logged_bind.
    + apply well_logged_for_each_entry. eapply Forall_impl; [exact IH|].
      intros [key value] Hv key'. apply Hv.
    + intros _. apply well_logged_createOrUpdateFile.
  - apply well_logged_ret.
Qed.

Lemma well_logged_createFiles owner repo currentPath directoryObj :
  well_logged (createFiles octokit owner repo currentPath directoryObj).
Proof. apply well_logged_visit. Qed.

Lemma planned_writes_Directory fullPath directory :
  planned_writes fullPath (Directory directory) =
    concat (map (fun entry => planned_writes (join_path fullPath entry.1) entry.2) directory)
    ++ [("README.md", readmeContent)].
Proof.
  cbn [planned_writes]. f_equal.
  induction directory as [|[key value] rest IH]; [done|]. simpl. by rewrite IH.
Qed.

Lemma writes_for_each_entry (body : string -> node -> M R unit) (plan : string -> node -> list (string * string)) entries :
  Forall (fun entry => forall key, writes_on_return (body key entry.2) (plan key entry.2))
    entries ->
  writes_on_return (for_each_entry body entries)
    (concat (map (fun entry => plan entry.1 entry.2) entries)).
Proof.
  induction 1 as [|[key value] rest Hv _ IH]; [apply writes_ret|].
  cbn [for_each_entry]. simpl. apply writes_bind; [apply Hv | done].
Qed.

(** A walk that returns has made the planned writes, in order. *)
Lemma writes_visit owner repo fullPath value :
  writes_on_return (visit octokit owner repo fullPath value)
    (encoded (planned_writes fullPath value)).
Proof.
  revert fullPath. induction value as [contents|directory IH|] using node_ind';
    intros fullPath.
  - cbn [visit]. apply (writes_bind _ _ [_] []); [apply writes_createOrUpdateFile|].
    intros _. apply writes_setTimeout.
  - rewrite visit_Directory, planned_writes_Directory.
    unfold encoded. rewrite map_app. apply writes_bind.
    + rewrite concat_map, map_map.
      apply (writes_for_each_entry _
               (fun key value => encoded (planned_writes (join_path fullPath key) value))).
      eapply Forall_impl; [exact IH|]. intros [key value] Hv key'. apply Hv.
    + intros _. apply writes_createOrUpdateFile.
  - apply writes_ret.
Qed.

Lemma createFiles_writes owner repo currentPath directoryObj r r' evs :
  createFiles octokit owner repo currentPath directoryObj r = (Return tt, r', evs) ->
  written evs = encoded (planned_writes currentPath (Directory directoryObj)).
Proof. apply writes_visit. Qed.

End ExportFacts.

(** The planned writes are one per file and one per directory: a tree
    with [N] files is exported in [N + 1] writes only when it has no
    directory below the root. *)
Lemma planned_writes_length fullPath value :
  length (planned_writes fullPath value) =
    length (files_of fullPath value) + directories_in value.
Proof.
  revert fullPath. induction value as [contents|directory IH|] using node_ind';
    intros fullPath; [done| |done].
  cbn [planned_writes files_of directories_in].
  rewrite length_app. simpl. rewrite Nat.add_1_r, <- plus_n_Sm. f_equal.
  induction IH as [|[key value] rest Hv _ IHrest]; [done|].
  simpl in Hv. rewrite !length_app, Hv, IHrest. lia.
Qed.

Section ExportLogs.
Implicit Types (evs : list event) (x : option thrown).

Lemma last_cons_Some {A} (a b : A) (l : list A) : last l = Some b -> last (a :: l) = Some b.
Proof. destruct l; [done|]. by intros <-. Qed.

(** In a log of that shape a failed write is the last write and the
    last call, and it is the error the export ends on. *)
Lemma export_log_failed_write x evs K params e :
  export_log x evs ->
  writes evs !! K = Some (params, Throw e) ->
  x = Some e /\
  length (writes evs) = S K /\
  last evs = Some (CreateOrUpdateFileContents params (Throw e)).
Proof.
  intros Hlog. revert K.
  induction Hlog as [|ms x evs _ IH|login x evs _ IH| |ps url x evs _ IH| |ps lookup x evs _ _ IH
                    |ps lookup e0 _|]; intros K HK; try done.
  - destruct (IH K HK) as (? & ? & ?). split_and!; [done..|by apply last_cons_Some].
  - destruct (IH K HK) as (? & ? & ?). split_and!; [done..|by apply last_cons_Some].
  - destruct (IH K HK) as (? & ? & ?). split_and!; [done..|by apply last_cons_Some].
  - destruct K as [|K]; [done|].
    destruct (IH K HK) as (? & ? & ?).
    split_and!; [done|simpl; by f_equal|by do 2 apply last_cons_Some].
  - destruct K as [|K]; [|done]. by injection HK as -> ->.
Qed.

(** Every write comes right after the lookup of its path, with the
    [sha] that lookup calls for. *)
Lemma export_log_upsert x evs i params reply :
  export_log x evs ->
  evs !! i = Some (CreateOrUpdateFileContents params reply) ->
  exists j lookup,
    i = S j /\
    evs !! j = Some (GetContent (owner params) (repo params) (path params) lookup) /\
    upsert_sha lookup (sha params).
Proof.
  intros Hlog. revert i.
  induction Hlog as [|ms x evs _ IH|login x evs _ IH| |ps url x evs _ IH| |ps lookup x evs Hsha _ IH
                    |ps lookup e0 Hsha|]; intros i Hi; try done.
  - destruct i as [|i]; [done|]. destruct (IH i Hi) as (j & lk & -> & ? & ?). by exists (S j), lk.
  - destruct i as [|i]; [done|]. destruct (IH i Hi) as (j & lk & -> & ? & ?). by exists (S j), lk.
  - destruct i as [|i]; [done|]. by destruct i.
  - destruct i as [|i]; [done|]. destruct (IH i Hi) as (j & lk & -> & ? & ?). by exists (S j), lk.
  - destruct i as [|i]; [done|]. by destruct i.
  - destruct i as [|[|i]]; [done| |].
    + injection Hi as <- <-. by exists 0, lookup.
    + destruct (IH i Hi) as (j & lk & -> & ? & ?). by exists (S (S j)), lk.
  - destruct i as [|[|i]]; [done| |done].
    injection Hi as <- <-. by exists 0, lookup.
  - destruct i as [|i]; [done|]. by destruct i.
Qed.

(** A lookup that fails otherwise than with 404 is the last call. *)
Lemma export_log_failed_lookup x evs j owner repo path e :
  export_log x evs ->
  evs !! j = Some (GetContent owner repo path (Throw e)) ->
  status e <> Some 404%Z ->
  x = Some e /\ length evs = S j.
Proof.
  intros Hlog. revert j.
  induction Hlog as [|ms x evs _ IH|login x evs _ IH| |ps url x evs _ IH| |ps lookup x evs Hsha _ IH
                    |ps lookup e0 Hsha|]; intros j Hj H404; try done.
  - destruct j as [|j]; [done|]. destruct (IH j Hj H404) as [? ?]. simpl. auto.
  - destruct j as [|j]; [done|]. destruct (IH j Hj H404) as [? ?]. simpl. auto.
  - destruct j as [|j]; [done|]. by destruct j.
  - destruct j as [|j]; [done|]. destruct (IH j Hj H404) as [? ?]. simpl. auto.
  - destruct j as [|j]; [done|]. by destruct j.
  - destruct j as [|[|j]]; [|done|].
    + injection Hj as _ _ _ ->. by inversion Hsha.
    + destruct (IH j Hj H404) as [? ?]. simpl. auto.
  - destruct j as [|[|j]]; [|done|done].
    injection Hj as _ _ _ ->. by inversion Hsha.
  - destruct j as [|j]; [|by destruct j]. by injection Hj as _ _ _ ->.
Qed.

End ExportLogs.

Section ExportRouteFacts.
Context {R : Type} (newOctokit : string -> Octokit R).

(** The log of the route has the shape [export_log], and the route
    answers with its [catch] block when the log ends on an error. *)
Lemma export_logged req r :
  exists x,
    export_log x (export newOctokit req r).2 /\
    forall e, x = Some e -> (export newOctokit req r).1.1 = export_catch e.
Proof.
  unfold export, export_try. rewrite bind_unfold.
  destruct (body_projectData req) as [| |projectData];
    [exists None; split; [constructor|done]| |].
  - exists None.
    destruct (body_token req), (body_repoName req); split; (constructor || done).
  - destruct (body_token req) as [token|], (body_repoName req) as [repoName|];
      try (exists None; split; [constructor|done]).
    change (ret () r) with (Return (), r, @nil event). cbv beta iota.
    destruct (truthy (Some token) && truthy (Some repoName));
      [|exists None; split; [constructor|done]].
    match goal with
    | |- context [(getAuthenticated ?o ≫= ?k) r] =>
        assert (Hlog : well_logged (getAuthenticated o ≫= k));
        [|specialize (Hlog r); destruct ((getAuthenticated o ≫= k) r) as [[[res|e] r'] evs]]
    end.
    + apply well_logged_bind; [apply well_logged_getAuthenticated|]. intros login.
      apply well_logged_bind; [apply well_logged_createForAuthenticatedUser|]. intros url.
      apply well_logged_bind; [apply well_logged_createFiles|]. intros _.
      apply well_logged_ret.
    + exists None. by split.
    + exists (Some e). split; [done|]. by intros ? [= <-].
Qed.

Lemma export_catch_reports_failure e : reports_failure (export_catch e).
Proof. by split. Qed.

(** C2. If the K-th content write of an export fails, it is the last
    content write and the last call of any kind the export makes: no
    later file and no README is written. The route answers 500 with
    [success: false]. *)
Theorem failed_write_aborts_export req r K params e :
  writes (export newOctokit req r).2 !! K = Some (params, Throw e) ->
  length (writes (export newOctokit req r).2) = S K /\
  last (export newOctokit req r).2 = Some (CreateOrUpdateFileContents params (Throw e)) /\
  reports_failure (export newOctokit req r).1.1.
Proof.
  intros HK. destruct (export_logged req r) as (x & Hlog & Hres).
  destruct (export_log_failed_write _ _ _ _ _ Hlog HK) as (-> & Hlen & Hlast).
  split_and!; [done..|]. rewrite (Hres e eq_refl). apply export_catch_reports_failure.
Qed.

(** C6. In every export, each content write comes right after a lookup
    of the same path in the same repository and carries the [sha] that
    lookup calls for: the hash of the file found, none when the path
    holds no file. A lookup that fails otherwise than with 404 is the
    last call of the export, so no write follows it, and the route
    answers with the failure. *)
Theorem export_writes_are_upserts req r :
  (forall i params reply,
     (export newOctokit req r).2 !! i = Some (CreateOrUpdateFileContents params reply) ->
     exists j lookup,
       i = S j /\
       (export newOctokit req r).2 !! j =
         Some (GetContent (owner params) (repo params) (path params) lookup) /\
       upsert_sha lookup (sha params)) /\
  (forall j owner repo path e,
     (export newOctokit req r).2 !! j = Some (GetContent owner repo path (Throw e)) ->
     status e <> Some 404%Z ->
     length (export newOctokit req r).2 = S j /\
     reports_failure (export newOctokit req r).1.1).
Proof.
  destruct (export_logged req r) as (x & Hlog & Hres). split.
  - intros i params reply Hi. by eapply export_log_upsert.
  - intros j owner repo path e Hj H404.
    destruct (export_log_failed_lookup _ _ _ _ _ _ _ Hlog Hj H404) as [-> Hlen].
    split; [done|]. rewrite (Hres e eq_refl). apply export_catch_reports_failure.
Qed.

End ExportRouteFacts.

Section ExportRuns.

Lemma buildAppHierarchy_scenario : buildAppHierarchy scenario = Some scenario_tree.
Proof. apply buildAppHierarchy_merged. Qed.

(** C1, at the failing input. The skeleton has three files; its export
    to an empty repository succeeds with seven content writes, four of
    them to [README.md]: one at the end of the walk of each directory
    ([src/components], [src/styles], [src] and the root). For the tree
    of the scenario the first README write comes before the writes of
    [src/styles/index.css] and [src/main.jsx]. *)
Theorem export_writes_README_per_directory :
  length (files_of EmptyString (Directory AppSchema.getAppSchema)) = 3 /\
  field "success" (sample_export AppSchema.getAppSchema 100).1.1 = Some (JBool true) /\
  map fst (written (sample_export AppSchema.getAppSchema 100).2) =
    ["package.json"; "vite.config.js"; "index.html";
     "README.md"; "README.md"; "README.md"; "README.md"] /\
  field "success" (sample_export scenario_tree 100).1.1 = Some (JBool true) /\
  map fst (written (sample_export scenario_tree 100).2) =
    ["package.json"; "vite.config.js"; "index.html";
     "src/components/Nav.jsx"; "README.md";
     "src/styles/index.css"; "README.md";
     "src/main.jsx"; "README.md";
     "README.md"].
Proof. split_and!; by vm_compute. Qed.

(** The same count for every tree and provider: an export that meets no
    failure makes one content write per file and one per directory, the
    root included, and the last one is the README. *)
Lemma createFiles_write_count {R} (octokit : Octokit R) owner repo currentPath directoryObj r r' evs :
  createFiles octokit owner repo currentPath directoryObj r = (Return tt, r', evs) ->
  length (written evs) =
    length (files_of currentPath (Directory directoryObj))
    + directories_in (Directory directoryObj) /\
  last (written evs) = Some ("README.md", Base64.encode readmeContent).
Proof.
  intros Hrun. rewrite (createFiles_writes _ _ _ _ _ _ _ _ Hrun).
  unfold encoded. rewrite length_map, planned_writes_length. split; [done|].
  rewrite planned_writes_Directory, map_app. apply last_snoc.
Qed.

Lemma failed_write_aborts_export_sample :
  length (writes (sample_export scenario_tree 4).2) = 5 /\
  last (sample_export scenario_tree 4).2 =
    Some (CreateOrUpdateFileContents readme_params (Throw (SampleProvider.http_error 403))) /\
  reports_failure (sample_export scenario_tree 4).1.1.
Proof.
  unfold sample_export.
  apply (failed_write_aborts_export _ _ _ 4 readme_params (SampleProvider.http_error 403)).
  vm_compute. reflexivity.
Defined.

Lemma export_writes_are_upserts_sample :
  (exists j lookup,
     20 = S j /\
     (sample_export scenario_tree 100).2 !! j =
       Some (GetContent "octocat" "demo" "README.md" lookup) /\
     upsert_sha lookup (Some (SampleProvider.blob_sha (Base64.encode readmeContent)))) /\
  (length (sample_export_outage scenario_tree).2 = 22 /\
   reports_failure (sample_export_outage scenario_tree).1.1).
Proof.
  split.
  - unfold sample_export.
    apply (proj1 (export_writes_are_upserts _ _ _) 20
             {| owner := "octocat"; repo := "demo"; path := "README.md";
                message := "Add README"; content := Base64.encode readmeContent;
                sha := Some (SampleProvider.blob_sha (Base64.encode readmeContent)) |}
             (Return tt)).
    vm_compute. reflexivity.
  - unfold sample_export_outage.
    apply (proj2 (export_writes_are_upserts _ _ _) 21 "octocat" "demo" "src/main.jsx"
             (SampleProvider.http_error 500)).
    + vm_compute. reflexivity.
    + vm_compute. discriminate.
Defined.

End ExportRuns.

(** * Sessions *)

Section SessionFacts.
Implicit Types (b : backend) (s : session) (st : string).

Lemma truthy_Some st : truthy (Some st) = true <-> st <> EmptyString.
Proof.
  unfold truthy. destruct (String.eqb_spec st EmptyString) as [->|Hne]; simpl; split; congruence.
Qed.

Lemma toHex_nonempty bytes : length bytes = 32 -> toHex bytes <> EmptyString.
Proof. by destruct bytes. Qed.

Lemma cleanup_lookup now (sessions : gmap string session) st s :
  cleanupAuthSessions now sessions !! st = Some s <->
  sessions !! st = Some s /\ (now - TTL <= timestamp s)%Z.
Proof.
  unfold cleanupAuthSessions. rewrite map_lookup_filter_Some. simpl.
  split; intros [? ?]; split; (done || lia).
Qed.

(** *** The status route, case by case *)

Lemma auth_status_not_found b st now :
  st <> EmptyString -> githubAuthSessions b !! st = None ->
  auth_status (Some st) now b = (b, status_not_found).
Proof.
  intros Hst%truthy_Some Hget. unfold auth_status. by rewrite Hst, Hget.
Qed.

Lemma auth_status_expired b st s now :
  st <> EmptyString -> githubAuthSessions b !! st = Some s ->
  (now - timestamp s > TTL)%Z ->
  auth_status (Some st) now b =
    (with_sessions b (delete st (githubAuthSessions b)), status_expired).
Proof.
  intros Hst%truthy_Some Hget Hage. unfold auth_status. rewrite Hst, Hget. simpl.
  by rewrite (proj2 (Z.gtb_lt _ _)) by lia.
Qed.

Lemma auth_status_pending b st s now :
  st <> EmptyString -> githubAuthSessions b !! st = Some s ->
  (now - timestamp s <= TTL)%Z -> token s = None ->
  auth_status (Some st) now b = (b, status_pending).
Proof.
  intros Hst%truthy_Some Hget Hage Htok. unfold auth_status. rewrite Hst, Hget. simpl.
  destruct (Z.gtb_spec (now - timestamp s) TTL); [lia|]. by rewrite Htok.
Qed.

Lemma auth_status_authorized b st s tok now :
  st <> EmptyString -> githubAuthSessions b !! st = Some s ->
  (now - timestamp s <= TTL)%Z -> token s = Some tok -> tok <> EmptyString ->
  auth_status (Some st) now b = (b, status_authorized tok).
Proof.
  intros Hst%truthy_Some Hget Hage Htok Hne%truthy_Some.
  unfold auth_status. rewrite Hst, Hget. simpl.
  destruct (Z.gtb_spec (now - timestamp s) TTL); [lia|]. by rewrite Htok, Hne.
Qed.

(** The status route reports a token only when the session holds it. *)
Lemma auth_status_token b state now tok :
  field "token" (auth_status state now b).2 = Some (JStr tok) ->
  exists st s, state = Some st /\ githubAuthSessions b !! st = Some s /\ token s = Some tok.
Proof.
  unfold auth_status. destruct state as [st|]; [|done].
  destruct (truthy (Some st)); simpl; [|done].
  destruct (githubAuthSessions b !! st) as [s|] eqn:Hget; [|done].
  destruct (now - timestamp s >? TTL)%Z; [done|].
  destruct (token s) as [tok'|] eqn:Htok; [|done].
  destruct (truthy (Some tok')); [|done].
  intros [= ->]. by exists st, s.
Qed.

(** *** The other routes and the table *)

Lemma auth_configured redirect_uri randomBytes now swept b :
  truthy (GITHUB_CLIENT_ID b) = true ->
  exists authUrl,
    auth redirect_uri randomBytes now swept b =
      (with_sessions b
         (cleanupAuthSessions swept
            (<[toHex randomBytes := {| timestamp := now; token := None |}]>
               (githubAuthSessions b))),
       json_ok [("authUrl", JStr authUrl); ("state", JStr (toHex randomBytes))]).
Proof. intros Hid. unfold auth. rewrite Hid. simpl. by eexists. Qed.

Lemma callback_success b code st s tok :
  code <> EmptyString -> st <> EmptyString -> tok <> EmptyString ->
  githubAuthSessions b !! st = Some s ->
  callback (Some code) (Some st) (ExchangeData (Some tok)) b =
    (with_sessions b
       (<[st := {| timestamp := timestamp s; token := Some tok |}]> (githubAuthSessions b)),
     page_connected).
Proof.
  intros Hc%truthy_Some Hst%truthy_Some Htok%truthy_Some Hget.
  unfold callback. rewrite Hc, Hst. simpl. by rewrite Hget, Htok.
Qed.

Lemma callback_failure b code st s exchange :
  code <> EmptyString -> st <> EmptyString ->
  githubAuthSessions b !! st = Some s ->
  exchange_fails exchange ->
  callback (Some code) (Some st) exchange b = (b, page_failed).
Proof.
  intros Hc%truthy_Some Hst%truthy_Some Hget Hex.
  unfold callback. rewrite Hc, Hst, Hget. simpl.
  destruct exchange as [|[tok|]]; [done| |done].
  simpl in Hex. by rewrite Hex.
Qed.

Lemma upload_sessions imageUrl w b :
  githubAuthSessions (upload imageUrl w b).1 = githubAuthSessions b.
Proof. unfold upload. by repeat case_match. Qed.

(** Where a session found after a request comes from: it was there, or
    the request created it, or the request is the callback that gave it
    its token. *)
Lemma handle_session_origin b req st s' :
  githubAuthSessions (handle b req).1 !! st = Some s' ->
  githubAuthSessions b !! st = Some s' \/
  token s' = None \/
  exists code s,
    req = Callback (Some code) (Some st) (ExchangeData (token s')) /\
    githubAuthSessions b !! st = Some s.
Proof.
  destruct req as [imageUrl w| |uri bytes now swept|code state exchange|state now]; simpl.
  - rewrite upload_sessions. auto.
  - auto.
  - unfold auth. destruct (truthy (GITHUB_CLIENT_ID b)); simpl; [|auto].
    intros [Hget _]%cleanup_lookup.
    apply lookup_insert_Some in Hget as [[_ <-]|[_ ?]]; auto.
  - unfold callback. destruct state as [st'|]; [|auto].
    destruct code as [code|]; [|auto].
    destruct (negb (truthy (Some code)) || negb (truthy (Some st'))); [auto|].
    destruct (githubAuthSessions b !! st') as [s|] eqn:Hget; [|auto].
    destruct exchange as [|[tok|]]; [auto| |auto].
    destruct (truthy (Some tok)); [|auto]. simpl.
    intros [[<- <-]|[_ ?]]%lookup_insert_Some; [|auto].
    right; right. by exists code, s.
  - unfold auth_status. destruct state as [st'|]; [|auto].
    destruct (truthy (Some st')); simpl; [|auto].
    destruct (githubAuthSessions b !! st') as [s|] eqn:Hget; [|auto].
    destruct (now - timestamp s >? TTL)%Z; simpl.
    + intros [_ ?]%lookup_delete_Some. auto.
    + repeat case_match; simplify_eq; auto.
Qed.

(** A session that is still within its ten minutes is there after the
    request, no older than before. *)
Lemma handle_keeps_session created b req st s :
  githubAuthSessions b !! st = Some s ->
  (created <= timestamp s)%Z ->
  before_expiry created req ->
  exists s',
    githubAuthSessions (handle b req).1 !! st = Some s' /\ (created <= timestamp s')%Z.
Proof.
  intros Hget Hts Hreq. unfold before_expiry in Hreq.
  destruct req as [imageUrl w| |uri bytes now swept|code state exchange|state now]; simpl in *.
  - rewrite upload_sessions. eauto.
  - eauto.
  - apply Forall_cons in Hreq as [Hnow [Hswept _]%Forall_cons].
    unfold auth. destruct (truthy (GITHUB_CLIENT_ID b)); simpl; [|eauto].
    destruct (decide (toHex bytes = st)) as [<-|Hne].
    + exists {| timestamp := now; token := None |}.
      rewrite cleanup_lookup, lookup_insert_eq. simpl.
      split; [split; [done|(unfold TTL in *; lia)] | (unfold TTL in *; lia)].
    + exists s. rewrite cleanup_lookup, lookup_insert_ne by done. split; [split; [done|(unfold TTL in *; lia)] | done].
  - unfold callback. destruct state as [st'|]; [|eauto].
    destruct (negb (truthy code) || negb (truthy (Some st'))); [eauto|].
    destruct (githubAuthSessions b !! st') as [s0|] eqn:Hget'; [|eauto].
    destruct exchange as [|[tok|]]; [eauto| |eauto].
    destruct (truthy (Some tok)); [|eauto]. simpl.
    destruct (decide (st' = st)) as [->|Hne].
    + exists {| timestamp := timestamp s0; token := Some tok |}.
      rewrite lookup_insert_eq. split; [done|]. simpl. by simplify_eq.
    + exists s. by rewrite lookup_insert_ne.
  - apply Forall_cons in Hreq as [Hnow _].
    unfold auth_status. destruct state as [st'|]; [|eauto].
    destruct (truthy (Some st')); simpl; [|eauto].
    destruct (githubAuthSessions b !! st') as [s0|] eqn:Hget'; [|eauto].
    destruct (Z.gtb_spec (now - timestamp s0) TTL) as [Hold|Hyoung]; simpl.
    + exists s. rewrite lookup_delete_ne; [done|].
      intros ->. simplify_eq. (unfold TTL in *; lia).
    + repeat case_match; simplify_eq; eauto.
Qed.

Lemma serve_snoc b reqs req : serve b (reqs ++ [req]) = (handle (serve b reqs) req).1.
Proof. unfold serve. by rewrite fold_left_app. Qed.

Lemma serve_keeps_session created reqs b st s :
  githubAuthSessions b !! st = Some s ->
  (created <= timestamp s)%Z ->
  Forall (before_expiry created) reqs ->
  exists s',
    githubAuthSessions (serve b reqs) !! st = Some s' /\ (created <= timestamp s')%Z.
Proof.
  intros Hget Hts Hreqs. revert b s Hget Hts.
  induction Hreqs as [|req reqs Hreq _ IH]; intros b s Hget Hts; [by exists s|].
  destruct (handle_keeps_session created b req st s Hget Hts Hreq) as (s1 & Hget1 & Hts1).
  exact (IH _ _ Hget1 Hts1).
Qed.

(** A token found in the table after [reqs] was put there by a
    callback among them, unless it was there before. *)
Lemma serve_token_origin reqs b st s' tok :
  (forall s, githubAuthSessions b !! st = Some s -> token s = None) ->
  githubAuthSessions (serve b reqs) !! st = Some s' ->
  token s' = Some tok ->
  exists code, In (Callback (Some code) (Some st) (ExchangeData (Some tok))) reqs.
Proof.
  intros Hb. revert s' tok.
  induction reqs as [|req reqs IH] using rev_ind; intros s' tok Hget Htok.
  - simpl in Hget. apply Hb in Hget. congruence.
  - rewrite serve_snoc in Hget.
    apply handle_session_origin in Hget as [Hget|[Hnone|(code & s & -> & _)]].
    + destruct (IH _ _ Hget Htok) as [code Hin]. exists code. apply in_app_iff. by left.
    + congruence.
    + exists code. rewrite Htok. apply in_app_iff. right. by left.
Qed.

End SessionFacts.

Section SessionTheorems.
Implicit Types (b : backend) (s : session) (st : string).

(** The session [auth] leaves in the table. *)
Lemma auth_session redirect_uri randomBytes now swept b :
  truthy (GITHUB_CLIENT_ID b) = true ->
  (swept - TTL <= now)%Z ->
  githubAuthSessions (auth redirect_uri randomBytes now swept b).1 !! toHex randomBytes =
    Some {| timestamp := now; token := None |}.
Proof.
  intros Hid Hswept.
  destruct (auth_configured redirect_uri randomBytes now swept b Hid) as [authUrl ->].
  simpl. apply cleanup_lookup. by rewrite lookup_insert_eq.
Qed.

(** C3. A session created by the auth route (with the OAuth client
    configured, thirty-two random bytes, and the sweep of the same
    request no later than ten minutes after the session's timestamp):
    the route returns its state token; polled within ten minutes of its
    creation the session is reported pending, with no token, also after
    any other requests served meanwhile that are not a callback for it;
    after a callback for it whose exchange brought a token it is
    reported authenticated with that token; a poll reports a token only
    if a callback for that state brought that token before; and polled
    at an age above ten minutes it is reported expired and is no longer
    in the table, whether or not it had been authorized. *)
Theorem session_lifecycle b redirect_uri randomBytes now swept :
  truthy (GITHUB_CLIENT_ID b) = true ->
  length randomBytes = 32 ->
  (swept - TTL <= now)%Z ->
  let st := toHex randomBytes in
  let b1 := (auth redirect_uri randomBytes now swept b).1 in
  let authorized code tok := (callback (Some code) (Some st) (ExchangeData (Some tok)) b1) in
  field "state" (auth redirect_uri randomBytes now swept b).2 = Some (JStr st) /\
  (forall t, (t - now <= TTL)%Z ->
     auth_status (Some st) t b1 = (b1, status_pending)) /\
  (forall reqs t,
     Forall (before_expiry now) reqs ->
     (forall code exchange, ~ In (Callback code (Some st) exchange) reqs) ->
     (now <= t <= now + TTL)%Z ->
     (auth_status (Some st) t (serve b1 reqs)).2 = status_pending) /\
  (forall code tok t,
     code <> EmptyString -> tok <> EmptyString -> (t - now <= TTL)%Z ->
     (authorized code tok).2 = page_connected /\
     auth_status (Some st) t (authorized code tok).1 =
       ((authorized code tok).1, status_authorized tok)) /\
  (forall reqs t tok,
     (auth_status (Some st) t (serve b1 reqs)).2 = status_authorized tok ->
     exists code, In (Callback (Some code) (Some st) (ExchangeData (Some tok))) reqs) /\
  (forall t, (t - now > TTL)%Z ->
     (auth_status (Some st) t b1).2 = status_expired /\
     githubAuthSessions (auth_status (Some st) t b1).1 !! st = None) /\
  (forall code tok t,
     code <> EmptyString -> tok <> EmptyString -> (t - now > TTL)%Z ->
     (auth_status (Some st) t (authorized code tok).1).2 = status_expired /\
     githubAuthSessions (auth_status (Some st) t (authorized code tok).1).1 !! st = None).
Proof.
  intros Hid Hlen Hswept st b1 authorized.
  assert (Hst : st <> EmptyString) by by apply toHex_nonempty.
  assert (Hget : githubAuthSessions b1 !! st = Some {| timestamp := now; token := None |})
    by by apply auth_session.
  assert (Hauth : forall code tok, code <> EmptyString -> tok <> EmptyString ->
            authorized code tok =
              (with_sessions b1
                 (<[st := {| timestamp := now; token := Some tok |}]> (githubAuthSessions b1)),
               page_connected)).
  { intros code tok Hcode Htok. unfold authorized.
    by rewrite (callback_success _ _ _ _ _ Hcode Hst Htok Hget). }
  split_and!.
  - destruct (auth_configured redirect_uri randomBytes now swept b Hid) as [authUrl ->].
    reflexivity.
  - intros t Ht. by eapply auth_status_pending.
  - intros reqs t Hreqs Hnone Ht.
    destruct (serve_keeps_session now reqs b1 st _ Hget) as (s' & Hget' & Hts');
      [simpl; lia | done |].
    destruct (token s') as [tok|] eqn:Htok.
    + destruct (serve_token_origin reqs b1 st s' tok) as [code Hin]; [|done..|].
      * intros s Hs. rewrite Hget in Hs. by injection Hs as <-.
      * by apply Hnone in Hin.
    + erewrite auth_status_pending; [done..| |done]. lia.
  - intros code tok t Hcode Htok Ht. rewrite (Hauth code tok Hcode Htok). split; [done|].
    cbn [fst]. eapply auth_status_authorized; [done| |simpl|simpl|done]; [apply lookup_insert_eq|done..].
  - intros reqs t tok Hres.
    destruct (auth_status_token (serve b1 reqs) (Some st) t tok) as (st' & s' & [= <-] & Hget' & Htok).
    { by rewrite Hres. }
    eapply serve_token_origin; [|done..].
    intros s Hs. rewrite Hget in Hs. by injection Hs as <-.
  - intros t Ht. erewrite auth_status_expired; [|done..]. simpl.
    split; [done|]. apply lookup_delete_eq.
  - intros code tok t Hcode Htok Ht. rewrite (Hauth code tok Hcode Htok). cbn [fst].
    erewrite auth_status_expired; [|done|apply lookup_insert_eq|done]. simpl.
    split; [done|]. apply lookup_delete_eq.
Qed.

Lemma session_lifecycle_sample :
  let st := toHex sample_bytes in
  let b1 := (auth "https%3A%2F%2Flocalhost%2Fapi%2Fgithub%2Fcallback" sample_bytes 0 0 sample_backend).1 in
  let b2 := (callback (Some "code") (Some st) (ExchangeData (Some "gho_token")) b1).1 in
  (auth_status (Some st) 599000 b1).2 = status_pending /\
  (auth_status (Some st) 599000 b2).2 = status_authorized "gho_token" /\
  (auth_status (Some st) 601000 b1).2 = status_expired /\
  (auth_status (Some st) 601000 b2).2 = status_expired /\
  githubAuthSessions (auth_status (Some st) 601000 b1).1 !! st = None.
Proof.
  destruct (session_lifecycle sample_backend
              "https%3A%2F%2Flocalhost%2Fapi%2Fgithub%2Fcallback" sample_bytes 0 0)
    as (_ & Hpending & _ & Hauthorized & _ & Hexpired & Hexpired');
    [reflexivity | reflexivity | by vm_compute |].
  cbv zeta. split_and!.
  - by rewrite Hpending by by vm_compute.
  - destruct (Hauthorized "code" "gho_token" 599000%Z) as [_ ->]; [done|done|by vm_compute|done].
  - apply Hexpired. by vm_compute.
  - apply (Hexpired' "code" "gho_token"); [done|done|by vm_compute].
  - apply Hexpired. by vm_compute.
Defined.

(** C7. For a session in the table and a well-formed callback for it
    whose token exchange fails or brings no access token: the backend,
    and with it the session, is left exactly as it was, the answer is
    the failure page, and after any further requests served before the
    session's ten minutes are over the session is still in the table
    and a callback for the same state whose exchange brings a token
    attaches it and answers with the success page. *)
Theorem failed_exchange_keeps_session b code st s exchange :
  code <> EmptyString -> st <> EmptyString ->
  githubAuthSessions b !! st = Some s ->
  exchange_fails exchange ->
  callback (Some code) (Some st) exchange b = (b, page_failed) /\
  forall reqs code' tok,
    Forall (before_expiry (timestamp s)) reqs ->
    code' <> EmptyString -> tok <> EmptyString ->
    let b' := serve (callback (Some code) (Some st) exchange b).1 reqs in
    exists s',
      githubAuthSessions b' !! st = Some s' /\
      callback (Some code') (Some st) (ExchangeData (Some tok)) b' =
        (with_sessions b'
           (<[st := {| timestamp := timestamp s'; token := Some tok |}]>
              (githubAuthSessions b')),
         page_connected).
Proof.
  intros Hcode Hst Hget Hex.
  rewrite (callback_failure _ _ _ _ _ Hcode Hst Hget Hex). split; [done|].
  intros reqs code' tok Hreqs Hcode' Htok b'. subst b'. simpl.
  destruct (serve_keeps_session (timestamp s) reqs b st s Hget) as (s' & Hget' & _);
    [lia | done |].
  exists s'. split; [done|]. by apply callback_success.
Qed.

Lemma failed_exchange_keeps_session_sample :
  let st := toHex sample_bytes in
  let b1 := (auth "https%3A%2F%2Flocalhost%2Fapi%2Fgithub%2Fcallback" sample_bytes 0 0 sample_backend).1 in
  callback (Some "code") (Some st) (ExchangeData None) b1 = (b1, page_failed) /\
  (callback (Some "code2") (Some st) (ExchangeData (Some "gho_token"))
     (serve b1 [AuthStatus (Some st) 10000])).2 = page_connected.
Proof.
  cbv zeta.
  destruct (failed_exchange_keeps_session
              (auth "https%3A%2F%2Flocalhost%2Fapi%2Fgithub%2Fcallback" sample_bytes 0 0
                 sample_backend).1
              "code" (toHex sample_bytes) {| timestamp := 0; token := None |}
              (ExchangeData None))
    as [Hfail Hretry]; [done | done | by vm_compute | done |].
  split; [exact Hfail|].
  destruct (Hretry [AuthStatus (Some (toHex sample_bytes)) 10000] "code2" "gho_token")
    as (s' & _ & Hcb); [|done|done|].
  - repeat constructor; by vm_compute.
  - rewrite Hfail in Hcb. cbn [fst] in Hcb. by rewrite Hcb.
Defined.

(** C8, counterexample. The empty string is in no session table, and
    the status route answers it with 400 and no [authenticated] field,
    not with the not-found response. *)
Lemma auth_status_empty_state :
  githubAuthSessions sample_backend !! EmptyString = None /\
  auth_status (Some EmptyString) 0 sample_backend = (sample_backend, status_invalid) /\
  field "authenticated" status_invalid = None /\
  status_invalid <> status_not_found.
Proof. split_and!; done. Qed.

(** C8, as amended. For every non-empty state token that is not in the
    session table the status route answers 404 with
    [authenticated: false] and leaves the backend as it is; for an empty
    or missing state it answers 400 [Invalid state parameter]. The
    route answers in every case. *)
Theorem auth_status_unknown b now :
  (forall st, st <> EmptyString -> githubAuthSessions b !! st = None ->
     auth_status (Some st) now b = (b, status_not_found)) /\
  field "authenticated" status_not_found = Some (JBool false) /\
  http_status status_not_found = 404%Z /\
  auth_status (Some EmptyString) now b = (b, status_invalid) /\
  auth_status None now b = (b, status_invalid).
Proof. split_and!; [|done..]. intros st. apply auth_status_not_found. Qed.

Lemma auth_status_unknown_sample :
  auth_status (Some "0123abcd") 0 sample_backend = (sample_backend, status_not_found).
Proof.
  apply (proj1 (auth_status_unknown sample_backend 0)); [discriminate | apply lookup_empty].
Defined.

End SessionTheorems.

(** * Uploads *)

Section UploadTheorems.

Lemma In_files_of_Directory file fullPath directory :
  In file (files_of fullPath (Directory directory)) <->
  exists key value,
    In (key, value) directory /\ In file (files_of (join_path fullPath key) value).
Proof.
  cbn [files_of]. induction directory as [|[key value] rest IH].
  - split; [done|]. by intros (? & ? & [] & _).
  - rewrite in_app_iff, IH. split.
    + intros [Hin|(k & v & Hin & Hf)].
      * exists key, value. split; [by left|done].
      * exists k, v. split; [by right|done].
    + intros (k & v & [[= <- <-]|Hin] & Hf); [by left|]. right. by exists k, v.
Qed.

(** Every file of a merged tree is a file of the skeleton or an entry
    of the payload, under the directory of its section. *)
Lemma files_of_merged appFiles :
  Forall (from_skeleton_or_payload appFiles)
    (files_of EmptyString
       (Directory (merged (entries_of (components_of appFiles))
                          (entries_of (styles_of appFiles))
                          (entries_of (pages_of appFiles))))).
Proof.
  apply Forall_forall. intros [path contents] Hin%list_elem_of_In.
  unfold from_skeleton_or_payload.
  apply In_files_of_Directory in Hin as (key & value & Hkv & Hin).
  destruct Hkv as [[= <- <-]|[[= <- <-]|[[= <- <-]|[[= <- <-]|[]]]]].
  - destruct Hin as [<-|[]]. auto.
  - destruct Hin as [<-|[]]. auto.
  - destruct Hin as [<-|[]]. auto.
  - apply In_files_of_Directory in Hin as (key & value & Hkv & Hin).
    apply In_set_all in Hkv as [(code & -> & Hp)%In_as_files|Hkv].
    + destruct Hin as [[= <- <-]|[]]. do 5 right. by exists key.
    + destruct Hkv as [[= <- <-]|[[= <- <-]|[]]];
        apply In_files_of_Directory in Hin as (name & value & Hkv & Hin);
        apply In_set_all in Hkv as [(code & -> & Hsec)%In_as_files|[]];
        destruct Hin as [[= <- <-]|[]].
      * do 3 right. left. by exists name.
      * do 4 right. left. by exists name.
Qed.

Lemma upload_delivers imageUrl w appFiles b :
  delivers imageUrl w appFiles ->
  exists t,
    buildAppHierarchy appFiles = Some t /\
    upload imageUrl w b = (with_appStructure b t, Some (upload_success t)).
Proof.
  intros (Hurl & length & description & Himage & Hlen & Hdesc & Hgen).
  eexists. split; [apply buildAppHierarchy_merged|].
  unfold upload. rewrite Hurl, Himage. simpl.
  destruct (Z.gtb_spec length (10 * 1024 * 1024)) as [?|_]; [lia|].
  by rewrite Hdesc, Hgen, buildAppHierarchy_merged.
Qed.

(** C10. Two uploads that deliver the same generated payload leave the
    same project tree and send the same answer, whatever the backends
    held before: the tree is the one [buildAppHierarchy] builds from
    the fresh skeleton, it replaces the stored one, and each of its
    files is a file of the skeleton or an entry of this payload, so
    nothing merged by an earlier upload is in it. *)
Theorem upload_replaces_project b1 b2 imageUrl1 imageUrl2 w1 w2 appFiles :
  delivers imageUrl1 w1 appFiles ->
  delivers imageUrl2 w2 appFiles ->
  exists t,
    buildAppHierarchy appFiles = Some t /\
    upload imageUrl1 w1 b1 = (with_appStructure b1 t, Some (upload_success t)) /\
    upload imageUrl2 w2 b2 = (with_appStructure b2 t, Some (upload_success t)) /\
    appStructure (upload imageUrl1 w1 b1).1 = appStructure (upload imageUrl2 w2 b2).1 /\
    Forall (from_skeleton_or_payload appFiles) (files_of EmptyString (Directory t)).
Proof.
  intros H1 H2.
  destruct (upload_delivers _ _ _ b1 H1) as (t & Ht & Hu1).
  destruct (upload_delivers _ _ _ b2 H2) as (t' & Ht' & Hu2).
  assert (t' = t) as -> by congruence.
  exists t. rewrite Hu1, Hu2. split_and!; [done..|].
  rewrite buildAppHierarchy_merged in Ht. injection Ht as <-. apply files_of_merged.
Qed.

Lemma upload_replaces_project_sample :
  exists t,
    buildAppHierarchy scenario = Some t /\
    upload sample_url sample_world sample_backend =
      (with_appStructure sample_backend t, Some (upload_success t)) /\
    upload sample_url sample_world (upload sample_url earlier_world sample_backend).1 =
      (with_appStructure (upload sample_url earlier_world sample_backend).1 t,
       Some (upload_success t)) /\
    appStructure (upload sample_url sample_world sample_backend).1 =
      appStructure (upload sample_url sample_world
                      (upload sample_url earlier_world sample_backend).1).1 /\
    Forall (from_skeleton_or_payload scenario) (files_of EmptyString (Directory t)).
Proof.
  apply (upload_replaces_project sample_backend
           (upload sample_url earlier_world sample_backend).1
           sample_url sample_url sample_world sample_world scenario).
  - split; [reflexivity|]. exists 204800%Z, "A landing page with a navigation bar.".
    split_and!; [reflexivity|by vm_compute|reflexivity|reflexivity].
  - split; [reflexivity|]. exists 204800%Z, "A landing page with a navigation bar.".
    split_and!; [reflexivity|by vm_compute|reflexivity|reflexivity].
Defined.

End UploadTheorems.

(** * Merging again, and merging less *)

Section RemergeTheorems.

(** C4, counterexample. The tree holds [Nav.jsx] under
    [src/components], from the upload of [revised_scenario]. A second
    generation is merged that brings [Nav.jsx] again, with another
    text, and a page named [components]: afterwards the tree has no
    [Nav.jsx] under [src/components], neither with the new text nor
    with the old; the page is where the directory was. *)
Lemma remerge_page_named_components :
  delivers sample_url revised_world revised_scenario /\
  delivers sample_url earlier_world page_named_components /\
  node_at ["src"; "components"; "Nav.jsx"]
    (appStructure (upload sample_url revised_world sample_backend).1) =
    Some (File "export default function Nav() {}") /\
  In ("Nav.jsx", "...") (entries_of (components_of page_named_components)) /\
  node_at ["src"; "components"; "Nav.jsx"]
    (appStructure
       (upload sample_url earlier_world
          (upload sample_url revised_world sample_backend).1).1) = None /\
  node_at ["src"; "components"]
    (appStructure
       (upload sample_url earlier_world
          (upload sample_url revised_world sample_backend).1).1) = Some (File "...").
Proof.
  split_and!; [| |reflexivity|by left|reflexivity..].
  - split; [reflexivity|]. exists 204800%Z, "A landing page with a navigation bar.".
    split_and!; [reflexivity|by vm_compute|reflexivity|reflexivity].
  - split; [reflexivity|]. exists 51200%Z, "A single page.".
    split_and!; [reflexivity|by vm_compute|reflexivity|reflexivity].
Qed.

(** C4, as amended. The code merges only into a fresh skeleton, once
    per upload, and the merged tree replaces the stored one. So the
    same payload merged a second time leaves the backend, and with it
    the stored tree, exactly as the first merge left it. When another
    payload is merged after the first, no directory of the resulting
    tree holds a name twice; and when the names of each of its
    sections are distinct and none of its pages is named [components]
    or [styles], every one of its entries is in the tree under the
    directory of its section with the text of this payload, whatever
    text the first merge had put under that name. *)
Theorem merge_idempotent imageUrl w appFiles imageUrl' w' appFiles' b :
  delivers imageUrl w appFiles ->
  delivers imageUrl' w' appFiles' ->
  let once := (upload imageUrl w b).1 in
  let twice := (upload imageUrl w once).1 in
  let remerged := (upload imageUrl' w' once).1 in
  buildAppHierarchy appFiles = Some (appStructure once) /\
  twice = once /\
  unique_names (Directory (appStructure remerged)) /\
  (distinct_names appFiles' -> ~ reserved_page appFiles' ->
   sections_placed appFiles' (appStructure remerged)).
Proof.
  intros Hfirst Hsecond once twice remerged. subst once twice remerged.
  destruct (upload_delivers _ _ _ b Hfirst) as (t & Ht & Hu). rewrite Hu. cbn [fst].
  destruct (upload_delivers _ _ _ (with_appStructure b t) Hfirst) as (t1 & Ht1 & ->).
  destruct (upload_delivers _ _ _ (with_appStructure b t) Hsecond) as (t' & Ht' & ->).
  assert (t1 = t) as -> by congruence.
  rewrite buildAppHierarchy_merged in Ht'. injection Ht' as <-.
  split_and!; [done|done|apply unique_names_merged|apply sections_placed_merged].
Qed.

Lemma merge_idempotent_scenario :
  buildAppHierarchy scenario =
    Some (appStructure (upload sample_url sample_world sample_backend).1) /\
  (upload sample_url sample_world (upload sample_url sample_world sample_backend).1).1 =
    (upload sample_url sample_world sample_backend).1 /\
  node_at ["src"; "components"; "Nav.jsx"]
    (appStructure (upload sample_url sample_world sample_backend).1) = Some (File "...") /\
  node_at ["src"; "components"; "Nav.jsx"]
    (appStructure
       (upload sample_url revised_world
          (upload sample_url sample_world sample_backend).1).1) =
    Some (File "export default function Nav() {}") /\
  unique_names
    (Directory
       (appStructure
          (upload sample_url revised_world
             (upload sample_url sample_world sample_backend).1).1)).
Proof.
  destruct (merge_idempotent sample_url sample_world scenario
              sample_url revised_world revised_scenario sample_backend)
    as (Honce & Htwice & Hunique & Hplaced).
  - split; [reflexivity|]. exists 204800%Z, "A landing page with a navigation bar.".
    split_and!; [reflexivity|by vm_compute|reflexivity|reflexivity].
  - split; [reflexivity|]. exists 204800%Z, "A landing page with a navigation bar.".
    split_and!; [reflexivity|by vm_compute|reflexivity|reflexivity].
  - split_and!; [exact Honce|exact Htwice|reflexivity| |exact Hunique].
    apply Hplaced.
    + split_and!; by_evaluation.
    + unfold reserved_page. cbn. intros [[?|[]]|[?|[]]]; discriminate.
    + by left.
Defined.



End RemergeTheorems.

(** * Further properties of the merge *)

Section MergeExtras.

(** X1. Whatever the payload, the root of the merged tree has the four
    entries of the skeleton, in their order, the three files with the
    skeleton's contents and [src] a directory: a payload adds no file
    at the root and alters none. *)
Theorem merge_keeps_root appFiles :
  exists t src_dir,
    buildAppHierarchy appFiles = Some t /\
    keys t = ["package.json"; "vite.config.js"; "index.html"; "src"] /\
    obj_get "package.json" t = Some (File AppSchema.package_json) /\
    obj_get "vite.config.js" t = Some (File AppSchema.vite_config_js) /\
    obj_get "index.html" t = Some (File AppSchema.index_html) /\
    obj_get "src" t = Some (Directory src_dir).
Proof. do 2 eexists. rewrite buildAppHierarchy_merged. by split_and!. Qed.

(** X2. A page named [components] takes the place of the components
    directory: the merged tree holds the page's file at
    [src/components], and no component of the payload is in the tree
    under [src/components]. *)
Theorem page_named_components_displaces appFiles code :
  NoDup (keys (entries_of (pages_of appFiles))) ->
  In ("components", code) (entries_of (pages_of appFiles)) ->
  exists t,
    buildAppHierarchy appFiles = Some t /\
    node_at ["src"; "components"] t = Some (File code) /\
    forall file, node_at ["src"; "components"; file] t = None.
Proof.
  intros Hnd Hin. eexists. split; [apply buildAppHierarchy_merged|].
  assert (Hget : obj_get "components"
                   (set_all (as_files (entries_of (pages_of appFiles)))
                      [("components", Directory (set_all (as_files (entries_of (components_of appFiles))) []));
                       ("styles", Directory (set_all (as_files (entries_of (styles_of appFiles))) []))])
                 = Some (File code)).
  { apply obj_get_set_all_In; [by rewrite keys_as_files|]. apply In_as_files. eauto. }
  split.
  - cbn. exact Hget.
  - intros file. cbn. by rewrite Hget.
Qed.

Lemma page_named_components_displaces_sample :
  exists t,
    buildAppHierarchy page_named_components = Some t /\
    node_at ["src"; "components"] t = Some (File "...") /\
    forall file, node_at ["src"; "components"; file] t = None.
Proof.
  apply (page_named_components_displaces page_named_components "...").
  - by_evaluation.
  - by left.
Defined.

Lemma In_files_of_File file fullPath contents :
  In file (files_of fullPath (File contents)) <-> file = (fullPath, contents).
Proof. simpl. split; [by intros [<-|[]] | by left]. Qed.

(** X3. For a payload whose sections each have distinct names and in
    which no page is named [components] or [styles], the files of the
    merged tree are exactly the three files of the skeleton and the
    entries of the payload, each at [src/components/name],
    [src/styles/name] or [src/name] with its contents; the same name
    may occur in several sections. *)
Theorem merged_files_exactly appFiles :
  distinct_names appFiles ->
  ~ reserved_page appFiles ->
  exists t,
    buildAppHierarchy appFiles = Some t /\
    forall file,
      In file (files_of EmptyString (Directory t)) <-> from_skeleton_or_payload appFiles file.
Proof.
  intros (HC & HS & HP) Hres. eexists. split; [apply buildAppHierarchy_merged|].
  intros file. split.
  { intros Hin. eapply Forall_forall; [apply files_of_merged|]. by apply list_elem_of_In. }
  set (C := entries_of (components_of appFiles)) in *.
  set (S := entries_of (styles_of appFiles)) in *.
  set (P := entries_of (pages_of appFiles)) in *.
  assert (Hc : ~ In "components" (keys (as_files P))).
  { rewrite keys_as_files. intros ?. apply Hres. by left. }
  assert (Hs : ~ In "styles" (keys (as_files P))).
  { rewrite keys_as_files. intros ?. apply Hres. by right. }
  set (src_dir := set_all (as_files P)
                    [("components", Directory (set_all (as_files C) []));
                     ("styles", Directory (set_all (as_files S) []))]).
  assert (Hsrc : forall f, (exists key value, In (key, value) src_dir /\
                              In f (files_of (join_path "src" key) value)) ->
                           In f (files_of EmptyString (Directory (merged C S P)))).
  { intros f Hf. apply In_files_of_Directory. exists "src", (Directory src_dir).
    split; [cbn; auto|]. by apply In_files_of_Directory. }
  unfold from_skeleton_or_payload. destruct file as [path contents]. cbn [fst snd].
  intros [[= -> ->]|[[= -> ->]|[[= -> ->]|[(name & -> & Hin)|[(name & -> & Hin)|(name & -> & Hin)]]]]].
  - apply In_files_of_Directory. exists "package.json", (File AppSchema.package_json).
    split; [cbn; auto|by left].
  - apply In_files_of_Directory. exists "vite.config.js", (File AppSchema.vite_config_js).
    split; [cbn; auto|by left].
  - apply In_files_of_Directory. exists "index.html", (File AppSchema.index_html).
    split; [cbn; auto|by left].
  - apply Hsrc. exists "components", (Directory (set_all (as_files C) [])). split.
    + apply obj_get_In. unfold src_dir. by rewrite obj_get_set_all_other.
    + apply In_files_of_Directory. exists name, (File contents). split; [|by left].
      apply obj_get_In, obj_get_set_all_In; [by rewrite keys_as_files|].
      apply In_as_files. eauto.
  - apply Hsrc. exists "styles", (Directory (set_all (as_files S) [])). split.
    + apply obj_get_In. unfold src_dir. by rewrite obj_get_set_all_other.
    + apply In_files_of_Directory. exists name, (File contents). split; [|by left].
      apply obj_get_In, obj_get_set_all_In; [by rewrite keys_as_files|].
      apply In_as_files. eauto.
  - apply Hsrc. exists name, (File contents). split; [|by left].
    apply obj_get_In, obj_get_set_all_In; [by rewrite keys_as_files|].
    apply In_as_files. eauto.
Qed.

Lemma merged_files_exactly_sample :
  exists t,
    buildAppHierarchy scenario = Some t /\
    forall file,
      In file (files_of EmptyString (Directory t)) <-> from_skeleton_or_payload scenario file.
Proof.
  apply (merged_files_exactly scenario).
  - split_and!; by_evaluation.
  - unfold reserved_page. cbn. intros [[?|[]]|[?|[]]]; discriminate.
Defined.

End MergeExtras.

(** * Further properties of the export *)

Section ExportExtras.
Context {R : Type}.
Implicit Types (octokit : Octokit R) (newOctokit : string -> Octokit R) (r : R).

Lemma calls_app evs1 evs2 : calls (evs1 ++ evs2) = calls evs1 ++ calls evs2.
Proof. apply omap_app. Qed.

Lemma makes_calls_ret {A} (a : A) : makes_calls (R:=R) (ret a) [].
Proof. by intros r. Qed.

Lemma makes_calls_bind {A B} (m : M R A) (k : A -> M R B) l1 l2 :
  makes_calls m l1 -> (forall a, makes_calls (k a) l2) ->
  makes_calls (m ≫= k) (l1 ++ l2).
Proof.
  intros Hm Hk r. rewrite bind_unfold. specialize (Hm r).
  destruct (m r) as [[[a|e] r'] evs1]; simpl in *.
  - specialize (Hk a r'). destruct (k a r') as [[[b|e] r2] evs2]; simpl in *;
      rewrite calls_app, Hm; [by rewrite Hk | by apply prefix_app].
  - by apply prefix_app_r.
Qed.

Lemma makes_calls_setTimeout ms : makes_calls (R:=R) (setTimeout ms) [Wait ms].
Proof. by intros r. Qed.

Lemma makes_calls_createOrUpdateFile octokit owner repo path content message :
  makes_calls (createOrUpdateFile octokit owner repo path content message)
    (upsert_calls owner repo path content message).
Proof.
  intros r. rewrite createOrUpdateFile_run. cbv zeta.
  destruct (repos_getContent octokit owner repo path r) as [[data|e] r1]; simpl.
  - destruct (repos_createOrUpdateFileContents octokit _ r1) as [[[]|e'] r2]; by simpl.
  - case_bool_decide; simpl.
    + destruct (repos_createOrUpdateFileContents octokit _ r1) as [[[]|e'] r2]; by simpl.
    + by apply prefix_cons, prefix_nil.
Qed.

Lemma planned_calls_Directory owner repo fullPath directory :
  planned_calls owner repo fullPath (Directory directory) =
    concat (map (fun entry => planned_calls owner repo (join_path fullPath entry.1) entry.2)
              directory)
    ++ upsert_calls owner repo "README.md" readmeContent "Add README".
Proof.
  cbn [planned_calls]. f_equal.
  induction directory as [|[key value] rest IH]; [done|]. simpl. by rewrite IH.
Qed.

Lemma makes_calls_for_each_entry (body : string -> node -> M R unit)
    (plan : string -> node -> list call) entries :
  Forall (fun entry => forall key, makes_calls (body key entry.2) (plan key entry.2)) entries ->
  makes_calls (for_each_entry body entries)
    (concat (map (fun entry => plan entry.1 entry.2) entries)).
Proof.
  induction 1 as [|[key value] rest Hv _ IH]; [apply makes_calls_ret|].
  cbn [for_each_entry]. simpl. apply makes_calls_bind; [apply Hv | done].
Qed.

Lemma makes_calls_visit octokit owner repo fullPath value :
  makes_calls (visit octokit owner repo fullPath value)
    (planned_calls owner repo fullPath value).
Proof.
  revert fullPath. induction value as [contents|directory IH|] using node_ind';
    intros fullPath.
  - cbn [visit planned_calls]. apply makes_calls_bind; [apply makes_calls_createOrUpdateFile|].
    intros _. apply makes_calls_setTimeout.
  - rewrite visit_Directory, planned_calls_Directory. apply makes_calls_bind.
    + apply (makes_calls_for_each_entry _
               (fun key value => planned_calls owner repo (join_path fullPath key) value)).
      eapply Forall_impl; [exact IH|]. intros [key value] Hv key'. apply Hv.
    + intros _. apply makes_calls_createOrUpdateFile.
  - apply makes_calls_ret.
Qed.

(** The route on a request that passes its validation. *)
Lemma export_valid newOctokit token repoName description projectData r :
  token <> EmptyString -> repoName <> EmptyString ->
  export newOctokit (export_request token repoName description projectData) r =
    match export_steps (newOctokit token) repoName description projectData r with
    | (Return res, r', evs) => (res, r', evs)
    | (Throw error, r', evs) => (export_catch error, r', evs)
    end.
Proof.
  intros Htok%truthy_Some Hrepo%truthy_Some.
  unfold export, export_try, export_request. cbn [body_token body_projectData body_repoName
    body_description]. rewrite bind_unfold.
  change (ret () r) with (Return (), r, @nil event). cbv beta iota.
  rewrite Htok, Hrepo. cbn [andb].
  change (getAuthenticated (newOctokit token) ≫= _)
    with (export_steps (newOctokit token) repoName description projectData).
  by destruct (export_steps _ _ _ _ r) as [[[res|e] r'] evs].
Qed.

Lemma export_steps_run octokit repoName description projectData r :
  export_steps octokit repoName description projectData r =
    match users_getAuthenticated octokit r with
    | (Throw e, r1) => (Throw e, r1, [GetAuthenticated (Throw e)])
    | (Return login, r1) =>
        match repos_createForAuthenticatedUser octokit (new_repo repoName description) r1 with
        | (Throw e, r2) =>
            (Throw e, r2,
             [GetAuthenticated (Return login);
              CreateForAuthenticatedUser (new_repo repoName description) (Throw e)])
        | (Return html_url, r2) =>
            match createFiles octokit login repoName EmptyString projectData r2 with
            | (Return _, r3, evs) =>
                (Return (export_success html_url), r3,
                 GetAuthenticated (Return login)
                 :: CreateForAuthenticatedUser (new_repo repoName description) (Return html_url)
                 :: evs)
            | (Throw e, r3, evs) =>
                (Throw e, r3,
                 GetAuthenticated (Return login)
                 :: CreateForAuthenticatedUser (new_repo repoName description) (Return html_url)
                 :: evs)
            end
        end
    end.
Proof.
  unfold export_steps. rewrite bind_unfold. unfold getAuthenticated at 1.
  destruct (users_getAuthenticated octokit r) as [[login|e] r1]; [|done].
  rewrite bind_unfold. unfold createForAuthenticatedUser at 1.
  destruct (repos_createForAuthenticatedUser octokit _ r1) as [[url|e] r2]; [|done].
  rewrite bind_unfold.
  destruct (createFiles octokit login repoName EmptyString projectData r2) as [[[[]|e] r3] evs];
    [|done].
  simpl. by rewrite app_nil_r.
Qed.

End ExportExtras.

Section ExportRouteExtras.
Context {R : Type} (newOctokit : string -> Octokit R).
Implicit Types (r : R).

(** X4. A request whose token or repository name is absent or the
    empty string, or whose [projectData] is falsy, is answered 400
    before any call to the provider, whose state is left as it was;
    but when [projectData] is [undefined] or [null] the handler throws
    while logging it, before the validation, and the answer is the 500
    of its [catch] block, also without any call. The token and the
    repository name are strings where present, as [export_body] has
    them: the handler tests no type. *)
Theorem export_rejects_missing_parameters req r :
  (body_projectData req = Nullish ->
   export newOctokit req r =
     (json_status 500 [("success", JBool false); ("error", JStr "Failed to export to GitHub")],
      r, [])) /\
  (body_projectData req <> Nullish ->
   truthy (body_token req) = false \/ body_projectData req = Falsy \/
     truthy (body_repoName req) = false ->
   export newOctokit req r =
     (json_status 400 [("error", JStr "Missing required parameters")], r, [])).
Proof.
  unfold export, export_try. rewrite bind_unfold. split.
  - by intros ->.
  - intros Hpd Hmissing.
    destruct (body_projectData req) as [| |projectData]; [done| |].
    + by destruct (body_token req), (body_repoName req).
    + destruct (body_token req) as [token|], (body_repoName req) as [repoName|]; try done.
      change (ret () r) with (Return (), r, @nil event). cbv beta iota.
      destruct Hmissing as [Hm|[Hm|Hm]]; [|done|]; rewrite Hm; [done|].
      by rewrite andb_false_r.
Qed.

(** X5. When the provider refuses to name the authenticated user, the
    export makes no other call: no repository is created and nothing
    is written. The answer is 500, and for a refusal with status 401
    its message asks to reconnect. *)
Theorem export_stops_at_identity token repoName description projectData r e :
  token <> EmptyString -> repoName <> EmptyString ->
  (users_getAuthenticated (newOctokit token) r).1 = Throw e ->
  let run := export newOctokit (export_request token repoName description projectData) r in
  run.2 = [GetAuthenticated (Throw e)] /\
  reports_failure run.1.1 /\
  (response_status e = Some 401%Z ->
   field "error" run.1.1 = Some (JStr "GitHub authentication expired. Please reconnect.")).
Proof.
  intros Htok Hrepo Hid run. subst run.
  rewrite export_valid, export_steps_run by done.
  destruct (users_getAuthenticated (newOctokit token) r) as [[login|e'] r1]; simpl in Hid; [done|].
  injection Hid as ->. simpl. split_and!; [done|apply export_catch_reports_failure|].
  intros H401. unfold export_catch. by rewrite bool_decide_eq_true_2.
Qed.

(** X6. When the repository cannot be created, the export has made two
    calls and makes no other: no lookup and no write. The answer is
    500, and for a refusal with status 422 (and not 401) its message
    says that the name is taken. *)
Theorem export_stops_at_repository token repoName description projectData r login e :
  token <> EmptyString -> repoName <> EmptyString ->
  (users_getAuthenticated (newOctokit token) r).1 = Return login ->
  (repos_createForAuthenticatedUser (newOctokit token) (new_repo repoName description)
     (users_getAuthenticated (newOctokit token) r).2).1 = Throw e ->
  let run := export newOctokit (export_request token repoName description projectData) r in
  run.2 = [GetAuthenticated (Return login);
           CreateForAuthenticatedUser (new_repo repoName description) (Throw e)] /\
  reports_failure run.1.1 /\
  (response_status e = Some 422%Z ->
   field "error" run.1.1 = Some (JStr "Repository name already exists. Please try again.")).
Proof.
  intros Htok Hrepo Hid Hcreate run. subst run.
  rewrite export_valid, export_steps_run by done.
  destruct (users_getAuthenticated (newOctokit token) r) as [[login'|e'] r1]; simpl in *; [|done].
  injection Hid as ->.
  destruct (repos_createForAuthenticatedUser (newOctokit token) _ r1) as [[url|e'] r2];
    simpl in *; [done|].
  injection Hcreate as ->. split_and!; [done|apply export_catch_reports_failure|].
  intros H422. unfold export_catch.
  rewrite bool_decide_eq_false_2 by (rewrite H422; discriminate).
  by rewrite bool_decide_eq_true_2.
Qed.

Lemma In_planned_calls_file owner repo path contents fullPath value :
  In (path, contents) (files_of fullPath value) ->
  In (Put owner repo path ("Add " +:+ path) (Base64.encode contents))
     (planned_calls owner repo fullPath value).
Proof.
  revert fullPath. induction value as [c|directory IH|] using node_ind';
    intros fullPath; [| |done].
  - intros [[= <- <-]|[]]. cbn. auto.
  - intros (key & value & Hkv & Hin)%In_files_of_Directory.
    rewrite planned_calls_Directory. apply in_app_iff. left.
    apply in_concat. eexists. split; [apply in_map, Hkv|].
    rewrite Forall_forall in IH. apply (IH (key, value)); [by apply list_elem_of_In|done].
Qed.

Lemma export_steps_calls octokit repoName description projectData r login :
  (users_getAuthenticated octokit r).1 = Return login ->
  match (export_steps octokit repoName description projectData r).1.1 with
  | Return res =>
      calls (export_steps octokit repoName description projectData r).2 =
        planned_calls login repoName EmptyString (Directory projectData) /\
      exists html_url, res = export_success html_url /\
        exists r1,
          (repos_createForAuthenticatedUser octokit (new_repo repoName description) r1).1 =
            Return html_url
  | Throw _ =>
      calls (export_steps octokit repoName description projectData r).2
        `prefix_of` planned_calls login repoName EmptyString (Directory projectData)
  end.
Proof.
  intros Hid. rewrite export_steps_run.
  destruct (users_getAuthenticated octokit r) as [[login'|e'] r1]; simpl in Hid; [|done].
  injection Hid as ->.
  destruct (repos_createForAuthenticatedUser octokit _ r1) as [[url|e'] r2] eqn:Hcreate;
    [|apply prefix_nil].
  pose proof (makes_calls_visit octokit login repoName EmptyString (Directory projectData) r2)
    as Hwalk.
  fold (createFiles octokit login repoName EmptyString projectData) in Hwalk.
  destruct (createFiles octokit login repoName EmptyString projectData r2) as [[[[]|e] r3] evs];
    simpl in *; [|done].
  split; [done|]. exists url. split; [done|]. exists r1. by rewrite Hcreate.
Qed.

(** X7. Once the user is known, the lookups, writes and pauses of an
    export are a beginning of the plan of its tree, whatever the
    provider answers: for each file its lookup, its write with message
    [Add path] and a pause of 100 ms, for each directory afterwards the
    lookup and the write of the README, all in the user's repository of
    the requested name. When the route answers 200 the plan was carried
    out in full, so every file of the tree was written at its path with
    the Base64 of its contents. *)
Theorem export_follows_plan token repoName description projectData r login :
  token <> EmptyString -> repoName <> EmptyString ->
  (users_getAuthenticated (newOctokit token) r).1 = Return login ->
  let run := export newOctokit (export_request token repoName description projectData) r in
  calls run.2 `prefix_of` planned_calls login repoName EmptyString (Directory projectData) /\
  (http_status run.1.1 = 200%Z ->
   calls run.2 = planned_calls login repoName EmptyString (Directory projectData) /\
   forall path contents,
     In (path, contents) (files_of EmptyString (Directory projectData)) ->
     In (Put login repoName path ("Add " +:+ path) (Base64.encode contents)) (calls run.2)).
Proof.
  intros Htok Hrepo Hid run. subst run. rewrite export_valid by done.
  pose proof (export_steps_calls (newOctokit token) repoName description projectData r login Hid)
    as Hsteps.
  destruct (export_steps (newOctokit token) repoName description projectData r)
    as [[[res|e] r'] evs]; cbn [fst snd] in *.
  - destruct Hsteps as [Hcalls _]. split; [by rewrite Hcalls|].
    intros _. split; [done|]. intros path contents Hin. rewrite Hcalls.
    by apply In_planned_calls_file.
  - split; [done|]. done.
Qed.

Lemma waits_calls evs :
  waits evs = omap (fun c => match c with Wait ms => Some ms | _ => None end) (calls evs).
Proof.
  induction evs as [|ev evs IH]; [done|].
  destruct ev; simpl; by rewrite ?IH.
Qed.

Lemma waits_planned_calls owner repo fullPath value :
  omap (fun c => match c with Wait ms => Some ms | _ => None end)
       (planned_calls owner repo fullPath value) =
    repeat 100%Z (length (files_of fullPath value)).
Proof.
  revert fullPath. induction value as [c|directory IH|] using node_ind';
    intros fullPath; [done| |done].
  rewrite planned_calls_Directory, omap_app. simpl. rewrite app_nil_r.
  cbn [files_of].
  induction IH as [|[key value] rest Hv _ IHrest]; [done|].
  simpl. rewrite omap_app, length_app, repeat_app. simpl in Hv. by rewrite Hv, IHrest.
Qed.

(** X8. An export that the route answers with 200 has paused 100 ms
    once for every file of the tree, and made no other pause: none
    after the README writes. *)
Theorem export_pauses_once_per_file token repoName description projectData r :
  token <> EmptyString -> repoName <> EmptyString ->
  let run := export newOctokit (export_request token repoName description projectData) r in
  http_status run.1.1 = 200%Z ->
  waits run.2 = repeat 100%Z (length (files_of EmptyString (Directory projectData))).
Proof.
  intros Htok Hrepo run. subst run. rewrite export_valid by done.
  destruct (users_getAuthenticated (newOctokit token) r) as [[login|e] r1] eqn:Hid.
  - pose proof (export_steps_calls (newOctokit token) repoName description projectData r login)
      as Hsteps. rewrite Hid in Hsteps. specialize (Hsteps eq_refl).
    destruct (export_steps (newOctokit token) repoName description projectData r)
      as [[[res|e] r'] evs]; cbn [fst snd] in *; [|done].
    intros _. destruct Hsteps as [Hcalls _].
    by rewrite waits_calls, Hcalls, waits_planned_calls.
  - rewrite export_steps_run, Hid. done.
Qed.

(** X9. The message of a failed export depends on the status of the
    failed call alone, not on the call: a content write refused with
    401 is reported as an expired authentication, one refused with 422
    as a repository name that already exists, any other as a failed
    export. *)
Theorem failed_write_message req r K params e :
  writes (export newOctokit req r).2 !! K = Some (params, Throw e) ->
  field "error" (export newOctokit req r).1.1 =
    Some (JStr (if bool_decide (response_status e = Some 401%Z)
                then "GitHub authentication expired. Please reconnect."
                else if bool_decide (response_status e = Some 422%Z)
                then "Repository name already exists. Please try again."
                else "Failed to export to GitHub")).
Proof.
  intros HK. destruct (export_logged newOctokit req r) as (x & Hlog & Hres).
  destruct (export_log_failed_write _ _ _ _ _ Hlog HK) as (-> & _ & _).
  rewrite (Hres e eq_refl). unfold export_catch. by repeat case_bool_decide.
Qed.

End ExportRouteExtras.

Lemma export_rejects_missing_parameters_sample :
  export (fun _ => SampleProvider.client "octocat")
    {| body_token := Some "gho_token"; body_projectData := Entries scenario_tree;
       body_repoName := Some EmptyString; body_description := None |}
    (SampleProvider.empty 100) =
  (json_status 400 [("error", JStr "Missing required parameters")],
   SampleProvider.empty 100, []).
Proof.
  apply (proj2 (export_rejects_missing_parameters (fun _ => SampleProvider.client "octocat")
                  _ (SampleProvider.empty 100))); [discriminate|].
  right; right. reflexivity.
Defined.

Lemma export_stops_at_repository_sample :
  let taken := {| users_getAuthenticated := fun r => (Return "octocat", r);
                  repos_createForAuthenticatedUser :=
                    fun _ r => (Throw (SampleProvider.http_error 422), r);
                  repos_getContent := fun _ _ path r => SampleProvider.lookup path r;
                  repos_createOrUpdateFileContents := SampleProvider.write |} in
  let run := export (fun _ => taken) (export_request "gho_token" "demo" None scenario_tree)
               (SampleProvider.empty 100) in
  run.2 = [GetAuthenticated (Return "octocat");
           CreateForAuthenticatedUser (new_repo "demo" None)
             (Throw (SampleProvider.http_error 422))] /\
  reports_failure run.1.1 /\
  (response_status (SampleProvider.http_error 422) = Some 422%Z ->
   field "error" run.1.1 = Some (JStr "Repository name already exists. Please try again.")).
Proof.
  cbv zeta.
  by apply (export_stops_at_repository _ "gho_token" "demo" None scenario_tree
              (SampleProvider.empty 100) "octocat" (SampleProvider.http_error 422)).
Defined.

Lemma export_stops_at_identity_sample :
  let revoked := {| users_getAuthenticated := fun r => (Throw (SampleProvider.http_error 401), r);
                    repos_createForAuthenticatedUser := fun _ r => (Return "url", r);
                    repos_getContent := fun _ _ path r => SampleProvider.lookup path r;
                    repos_createOrUpdateFileContents := SampleProvider.write |} in
  let run := export (fun _ => revoked) (export_request "gho_token" "demo" None scenario_tree)
               (SampleProvider.empty 100) in
  run.2 = [GetAuthenticated (Throw (SampleProvider.http_error 401))] /\
  reports_failure run.1.1 /\
  (response_status (SampleProvider.http_error 401) = Some 401%Z ->
   field "error" run.1.1 = Some (JStr "GitHub authentication expired. Please reconnect.")).
Proof.
  cbv zeta.
  by apply (export_stops_at_identity _ "gho_token" "demo" None scenario_tree
              (SampleProvider.empty 100) (SampleProvider.http_error 401)).
Defined.

Lemma export_follows_plan_sample :
  calls (sample_export scenario_tree 100).2 =
    planned_calls "octocat" "demo" EmptyString (Directory scenario_tree) /\
  calls (sample_export scenario_tree 4).2
    `prefix_of` planned_calls "octocat" "demo" EmptyString (Directory scenario_tree).
Proof.
  split.
  - destruct (export_follows_plan (fun _ => SampleProvider.client "octocat")
                "gho_token" "demo" None scenario_tree (SampleProvider.empty 100) "octocat")
      as [_ Hfull]; [discriminate|discriminate|reflexivity|].
    destruct Hfull as [Hcalls _]; [by vm_compute|]. exact Hcalls.
  - destruct (export_follows_plan (fun _ => SampleProvider.client "octocat")
                "gho_token" "demo" None scenario_tree (SampleProvider.empty 4) "octocat")
      as [Hprefix _]; [discriminate|discriminate|reflexivity|].
    exact Hprefix.
Defined.

Lemma export_pauses_once_per_file_sample :
  waits (sample_export scenario_tree 100).2 = repeat 100%Z 6.
Proof.
  apply (export_pauses_once_per_file (fun _ => SampleProvider.client "octocat")
           "gho_token" "demo" None scenario_tree (SampleProvider.empty 100));
    [discriminate|discriminate|by vm_compute].
Defined.

Lemma failed_write_message_sample :
  field "error" (sample_export scenario_tree 4).1.1 = Some (JStr "Failed to export to GitHub").
Proof.
  apply (failed_write_message (fun _ => SampleProvider.client "octocat") _
           (SampleProvider.empty 4) 4 readme_params (SampleProvider.http_error 403)).
  by vm_compute.
Defined.

(** * Further properties of the sessions *)

Section SessionExtras.
Implicit Types (b : backend) (s : session) (st : string).

Lemma auth_status_alive b st s now :
  st <> EmptyString -> githubAuthSessions b !! st = Some s ->
  (now - timestamp s <= TTL)%Z ->
  auth_status (Some st) now b =
    (b, if truthy (token s) then status_authorized (default EmptyString (token s))
        else status_pending).
Proof.
  intros Hst%truthy_Some Hget Hage. unfold auth_status. rewrite Hst, Hget. simpl.
  destruct (Z.gtb_spec (now - timestamp s) TTL); [lia|].
  destruct (token s) as [tok|]; [|done]. by destruct (truthy (Some tok)).
Qed.

(** X10. The sweep and the status route agree on what expired means,
    up to the boundary: a session is swept at a reading of the clock
    exactly when a poll at that reading would report it expired, that
    is when its age is above ten minutes; at ten minutes sharp it is
    kept and not reported expired. *)
Theorem sweep_and_poll_agree b st s now :
  st <> EmptyString ->
  githubAuthSessions b !! st = Some s ->
  ((auth_status (Some st) now b).2 = status_expired <-> (now - timestamp s > TTL)%Z) /\
  (cleanupAuthSessions now (githubAuthSessions b) !! st = None <->
     (now - timestamp s > TTL)%Z).
Proof.
  intros Hst Hget. split.
  - destruct (Z.le_gt_cases (now - timestamp s) TTL) as [Hyoung|Hold].
    + split; [|lia]. intros Hres. exfalso.
      rewrite (auth_status_alive b st s now) in Hres by done.
      by destruct (truthy (token s)).
    + split; [lia|]. intros _. rewrite (auth_status_expired b st s now); [done..|lia].
  - destruct (cleanupAuthSessions now (githubAuthSessions b) !! st) as [s'|] eqn:Hc.
    + apply cleanup_lookup in Hc as [Hs' Hage]. simplify_eq. split; [done|lia].
    + split; [|done]. intros _.
      destruct (Z.le_gt_cases (now - timestamp s) TTL) as [Hyoung|Hold]; [|lia].
      assert (cleanupAuthSessions now (githubAuthSessions b) !! st = Some s) as Hin
        by (apply cleanup_lookup; split; [done|lia]).
      congruence.
Qed.

Lemma sweep_and_poll_agree_sample :
  let b := (auth "cb" sample_bytes 0 0 sample_backend).1 in
  ((auth_status (Some (toHex sample_bytes)) 600000 b).2 = status_expired <->
     (600000 - 0 > TTL)%Z) /\
  (cleanupAuthSessions 600000 (githubAuthSessions b) !! toHex sample_bytes = None <->
     (600000 - 0 > TTL)%Z).
Proof.
  cbv zeta.
  apply (sweep_and_poll_agree (auth "cb" sample_bytes 0 0 sample_backend).1
           (toHex sample_bytes) {| timestamp := 0; token := None |} 600000).
  - discriminate.
  - by vm_compute.
Defined.

(** X11. The auth route without a configured client id answers 500 and
    leaves the backend as it is. With one, the table afterwards holds
    exactly the new pending session under its state and the sessions of
    other states that were there, each only if its timestamp is no
    more than ten minutes behind the reading of the sweep: no session
    older than that survives an auth request. *)
Theorem auth_sweeps_table redirect_uri randomBytes now swept b :
  (truthy (GITHUB_CLIENT_ID b) = false ->
   auth redirect_uri randomBytes now swept b =
     (b, json_status 500 [("error", JStr "GitHub OAuth not configured")])) /\
  (truthy (GITHUB_CLIENT_ID b) = true ->
   forall st s,
     githubAuthSessions (auth redirect_uri randomBytes now swept b).1 !! st = Some s <->
     (swept - TTL <= timestamp s)%Z /\
     (st = toHex randomBytes /\ s = {| timestamp := now; token := None |} \/
      st <> toHex randomBytes /\ githubAuthSessions b !! st = Some s)).
Proof.
  split.
  - intros Hid. unfold auth. by rewrite Hid.
  - intros Hid st s.
    destruct (auth_configured redirect_uri randomBytes now swept b Hid) as [authUrl ->].
    simpl. rewrite cleanup_lookup, lookup_insert_Some.
    split.
    + intros [[[<- <-]|[? ?]] ?]; auto.
    + intros [? [[-> ->]|[? ?]]]; auto.
Qed.

Lemma auth_sweeps_table_sample :
  githubAuthSessions (auth "cb" sample_bytes 0 0 sample_backend).1 !! toHex sample_bytes =
    Some {| timestamp := 0; token := None |}.
Proof.
  apply (proj2 (auth_sweeps_table "cb" sample_bytes 0 0 sample_backend) eq_refl).
  split; [by vm_compute|]. by left.
Defined.

(** X12. The status route sends a token only with a 200 answer, only
    for a session in the table that holds that token, and only while
    the session's age is at most ten minutes: a token attached to a
    session, also one attached after it expired, is never sent once
    the session is older. *)
Theorem status_sends_token_only_when_live b state now tok :
  field "token" (auth_status state now b).2 = Some (JStr tok) ->
  exists st s,
    state = Some st /\
    githubAuthSessions b !! st = Some s /\
    token s = Some tok /\
    (now - timestamp s <= TTL)%Z /\
    auth_status state now b = (b, status_authorized tok).
Proof.
  unfold auth_status. destruct state as [st|]; [|done].
  destruct (truthy (Some st)); simpl; [|done].
  destruct (githubAuthSessions b !! st) as [s|] eqn:Hget; [|done].
  destruct (Z.gtb_spec (now - timestamp s) TTL) as [Hold|Hyoung]; [done|].
  destruct (token s) as [tok'|] eqn:Htok; [|done].
  destruct (truthy (Some tok')); [|done].
  intros [= ->]. exists st, s. split_and!; (done || lia).
Qed.

Lemma status_sends_token_only_when_live_sample :
  let st := toHex sample_bytes in
  let b2 := (callback (Some "code") (Some st) (ExchangeData (Some "gho_token"))
               (auth "cb" sample_bytes 0 0 sample_backend).1).1 in
  exists st' s,
    Some st = Some st' /\
    githubAuthSessions b2 !! st' = Some s /\
    token s = Some "gho_token" /\
    (1000 - timestamp s <= TTL)%Z /\
    auth_status (Some st) 1000 b2 = (b2, status_authorized "gho_token").
Proof.
  cbv zeta. apply status_sends_token_only_when_live. by vm_compute.
Defined.

(** X13. A poll changes the backend only when it answers 410, and then
    only by deleting the polled session, so that the next poll of the
    same state, at any time, answers 404; every other poll leaves the
    backend as it is. *)
Theorem poll_deletes_only_expired b state now :
  (auth_status state now b).2 <> status_expired /\ (auth_status state now b).1 = b \/
  exists st,
    state = Some st /\
    auth_status state now b =
      (with_sessions b (delete st (githubAuthSessions b)), status_expired) /\
    forall later, (auth_status state later (auth_status state now b).1).2 = status_not_found.
Proof.
  destruct state as [st|]; [|by left].
  destruct (String.eqb_spec st EmptyString) as [->|Hst]; [by left|].
  destruct (githubAuthSessions b !! st) as [s|] eqn:Hget.
  - destruct (Z.le_gt_cases (now - timestamp s) TTL) as [Hyoung|Hold].
    + left. rewrite (auth_status_alive b st s now) by done.
      split; [|done]. by destruct (truthy (token s)).
    + right. exists st. rewrite (auth_status_expired b st s now) by (done || lia).
      split_and!; [done..|]. intros later. cbn [fst].
      by rewrite auth_status_not_found by (done || apply lookup_delete_eq).
  - left. by rewrite auth_status_not_found.
Qed.

(** X14. A callback whose state is in no session answers 400 and leaves
    the backend as it is; and no callback, whatever its parameters and
    the provider's answer, adds a session, removes one or moves a
    timestamp: the table keeps its states and their timestamps. *)
Theorem callback_keeps_states code state exchange b :
  (forall st, state = Some st -> githubAuthSessions b !! st = None ->
     (callback code state exchange b).1 = b /\
     http_status (callback code state exchange b).2 = 400%Z) /\
  (forall st,
     timestamp <$> (githubAuthSessions (callback code state exchange b).1 !! st) =
     timestamp <$> (githubAuthSessions b !! st)).
Proof.
  unfold callback. split.
  - intros st -> Hget. rewrite Hget. by destruct (negb (truthy code) || negb (truthy (Some st))).
  - intros st. destruct state as [st'|]; [|done].
    destruct (negb (truthy code) || negb (truthy (Some st'))); [done|].
    destruct (githubAuthSessions b !! st') as [s|] eqn:Hget; [|done].
    destruct exchange as [|[tok|]]; [done| |done].
    destruct (truthy (Some tok)); [|done]. simpl.
    destruct (decide (st' = st)) as [->|Hne].
    + by rewrite lookup_insert_eq, Hget.
    + by rewrite lookup_insert_ne.
Qed.

(** X15. A second callback for a session that already has a token
    replaces it: after two callbacks that each brought a token, a poll
    within the session's ten minutes reports the second token. *)
Theorem second_callback_replaces_token b st s code1 tok1 code2 tok2 now :
  st <> EmptyString -> code1 <> EmptyString -> code2 <> EmptyString ->
  tok1 <> EmptyString -> tok2 <> EmptyString ->
  githubAuthSessions b !! st = Some s ->
  (now - timestamp s <= TTL)%Z ->
  let b1 := (callback (Some code1) (Some st) (ExchangeData (Some tok1)) b).1 in
  let b2 := (callback (Some code2) (Some st) (ExchangeData (Some tok2)) b1).1 in
  (callback (Some code2) (Some st) (ExchangeData (Some tok2)) b1).2 = page_connected /\
  auth_status (Some st) now b2 = (b2, status_authorized tok2).
Proof.
  intros Hst Hc1 Hc2 Ht1 Ht2 Hget Hage b1 b2. subst b1 b2.
  rewrite (callback_success b code1 st s tok1) by done. cbn [fst].
  erewrite callback_success; [|done..|apply lookup_insert_eq]. cbn [fst snd].
  split; [done|].
  eapply auth_status_authorized; [done|apply lookup_insert_eq|done..].
Qed.

Lemma second_callback_replaces_token_sample :
  let st := toHex sample_bytes in
  let b := (auth "cb" sample_bytes 0 0 sample_backend).1 in
  let b1 := (callback (Some "code1") (Some st) (ExchangeData (Some "gho_first")) b).1 in
  let b2 := (callback (Some "code2") (Some st) (ExchangeData (Some "gho_second")) b1).1 in
  (callback (Some "code2") (Some st) (ExchangeData (Some "gho_second")) b1).2 = page_connected /\
  auth_status (Some st) 1000 b2 = (b2, status_authorized "gho_second").
Proof.
  cbv zeta.
  apply (second_callback_replaces_token (auth "cb" sample_bytes 0 0 sample_backend).1
           (toHex sample_bytes) {| timestamp := 0; token := None |}
           "code1" "gho_first" "code2" "gho_second" 1000);
    try discriminate; by vm_compute.
Defined.

(** X16. A callback or a poll for one state leaves the session of
    every other state as it is. *)
Theorem other_sessions_untouched b st st' code exchange now :
  st' <> st ->
  githubAuthSessions (callback code (Some st) exchange b).1 !! st' = githubAuthSessions b !! st' /\
  githubAuthSessions (auth_status (Some st) now b).1 !! st' = githubAuthSessions b !! st'.
Proof.
  intros Hne. split.
  - unfold callback.
    destruct (negb (truthy code) || negb (truthy (Some st))); [done|].
    destruct (githubAuthSessions b !! st) as [s|] eqn:Hget; [|done].
    destruct exchange as [|[tok|]]; [done| |done].
    destruct (truthy (Some tok)); [|done]. simpl. by rewrite lookup_insert_ne.
  - unfold auth_status.
    destruct (truthy (Some st)); [|done]. simpl.
    destruct (githubAuthSessions b !! st) as [s|] eqn:Hget; [|done].
    destruct (now - timestamp s >? TTL)%Z; simpl.
    + by rewrite lookup_delete_ne.
    + destruct (token s) as [tok|]; [|done]. by destruct (truthy (Some tok)).
Qed.

Lemma other_sessions_untouched_sample :
  let b := (auth "cb" sample_bytes 0 0 sample_backend).1 in
  githubAuthSessions (callback (Some "code") (Some "other") ExchangeFails b).1
    !! toHex sample_bytes = githubAuthSessions b !! toHex sample_bytes /\
  githubAuthSessions (auth_status (Some "other") 700000 b).1
    !! toHex sample_bytes = githubAuthSessions b !! toHex sample_bytes.
Proof.
  cbv zeta. apply other_sessions_untouched. discriminate.
Defined.

End SessionExtras.

(** * State tokens, uploads and the image type *)

Section TokenExtras.

Lemma hex_value_digit n : (n < 16)%N -> hex_value (hex_digit n) = n.
Proof.
  intros Hn. destruct n as [|p]; [reflexivity|].
  do 4 (destruct p as [p|p|]; try reflexivity); lia.
Qed.

Lemma toHex_inj bytes1 bytes2 : toHex bytes1 = toHex bytes2 -> bytes1 = bytes2.
Proof.
  revert bytes2. induction bytes1 as [|b1 rest1 IH]; intros [|b2 rest2]; try done.
  simpl. intros [= Hhi Hlo Hrest]. f_equal; [|by apply IH].
  pose proof (Byte.to_N_bounded b1) as H1. pose proof (Byte.to_N_bounded b2) as H2.
  apply (f_equal hex_value) in Hhi, Hlo.
  rewrite !hex_value_digit in Hhi, Hlo
    by (try apply N.mod_upper_bound; try apply N.Div0.div_lt_upper_bound; lia).
  assert (Byte.to_N b1 = Byte.to_N b2) as Heq.
  { rewrite (N.div_mod (Byte.to_N b1) 16), (N.div_mod (Byte.to_N b2) 16) by lia. congruence. }
  apply (f_equal Byte.of_N) in Heq. rewrite !Byte.of_to_N in Heq. congruence.
Qed.

(** X17. Two auth requests whose random bytes differ get different
    state tokens, and when neither sweep comes more than ten minutes
    after the first session's timestamp (nor the second sweep after
    the second's) both sessions are pending in the table afterwards:
    starting a second authorization does not disturb the first. *)
Theorem two_pending_sessions b uri1 bytes1 now1 swept1 uri2 bytes2 now2 swept2 :
  truthy (GITHUB_CLIENT_ID b) = true ->
  bytes1 <> bytes2 ->
  (swept1 - TTL <= now1)%Z -> (swept2 - TTL <= now1)%Z -> (swept2 - TTL <= now2)%Z ->
  let b2 := (auth uri2 bytes2 now2 swept2 (auth uri1 bytes1 now1 swept1 b).1).1 in
  toHex bytes1 <> toHex bytes2 /\
  githubAuthSessions b2 !! toHex bytes1 = Some {| timestamp := now1; token := None |} /\
  githubAuthSessions b2 !! toHex bytes2 = Some {| timestamp := now2; token := None |}.
Proof.
  intros Hid Hne H1 H2 H3 b2. subst b2.
  assert (Hst : toHex bytes1 <> toHex bytes2) by (intros ?%toHex_inj; done).
  pose proof (auth_session uri1 bytes1 now1 swept1 b Hid H1) as Hfirst.
  destruct (auth_configured uri1 bytes1 now1 swept1 b Hid) as [authUrl1 Hb1].
  rewrite Hb1 in *. cbn [fst] in *.
  split; [done|]. split.
  - destruct (auth_configured uri2 bytes2 now2 swept2
                (with_sessions b
                   (cleanupAuthSessions swept1
                      (<[toHex bytes1 := {| timestamp := now1; token := None |}]>
                         (githubAuthSessions b)))) Hid) as [authUrl2 ->].
    cbn [fst githubAuthSessions with_sessions]. apply cleanup_lookup.
    rewrite lookup_insert_ne by done. by split.
  - by apply auth_session.
Qed.

Lemma two_pending_sessions_sample :
  let b2 := (auth "cb" (repeat Byte.x01 32) 5000 5000
               (auth "cb" sample_bytes 0 0 sample_backend).1).1 in
  toHex sample_bytes <> toHex (repeat Byte.x01 32) /\
  githubAuthSessions b2 !! toHex sample_bytes = Some {| timestamp := 0; token := None |} /\
  githubAuthSessions b2 !! toHex (repeat Byte.x01 32) =
    Some {| timestamp := 5000; token := None |}.
Proof.
  cbv zeta.
  apply (two_pending_sessions sample_backend "cb" sample_bytes 0 0
           "cb" (repeat Byte.x01 32) 5000 5000);
    [reflexivity|discriminate|by vm_compute..].
Defined.

End TokenExtras.

Section UploadExtras.

(** X18. An upload changes the backend only when it succeeds: either
    it delivers a payload, the stored tree becomes the merged one and
    the answer carries it, or the backend is exactly as before and
    the answer, if any, is a 400 or a 500. *)
Theorem upload_changes_project_only_on_success imageUrl w b :
  (exists appFiles t,
     delivers imageUrl w appFiles /\
     buildAppHierarchy appFiles = Some t /\
     upload imageUrl w b = (with_appStructure b t, Some (upload_success t))) \/
  ((upload imageUrl w b).1 = b /\
   forall res, (upload imageUrl w b).2 = Some res ->
     http_status res = 400%Z \/ http_status res = 500%Z).
Proof.
  unfold upload.
  destruct (truthy imageUrl) eqn:Hurl; simpl; [|right; split; [done|intros ? [= <-]; auto]].
  destruct (image w) as [[ok length]|] eqn:Himage; [|by right].
  destruct ok; simpl; [|right; split; [done|intros ? [= <-]; auto]].
  destruct (Z.gtb_spec length (10 * 1024 * 1024)) as [Hbig|Hsmall];
    [right; split; [done|intros ? [= <-]; auto]|].
  destruct (imageDesc w) as [description|] eqn:Hdesc; [|by right].
  destruct (appContent w description) as [appFiles|] eqn:Hgen; [|by right].
  left. exists appFiles. eexists. rewrite buildAppHierarchy_merged.
  split_and!; [|done..]. split; [done|]. by exists length, description.
Qed.

(** X19. The size limit is ten mebibytes, inclusive: an image that was
    fetched is refused with 400 as too large exactly when its body has
    more than 10 * 1024 * 1024 bytes, whatever the description and the
    generation would have given. *)
Theorem upload_size_limit imageUrl w b length :
  truthy imageUrl = true ->
  image w = Resolved (true, length) ->
  ((upload imageUrl w b).2 = Some too_large <-> (length > 10485760)%Z) /\
  ((length > 10485760)%Z -> (upload imageUrl w b).1 = b).
Proof.
  intros Hurl Himage. unfold upload. rewrite Hurl, Himage. simpl.
  destruct (Z.gtb_spec length (10 * 1024 * 1024)) as [Hbig|Hsmall].
  - split; [|done]. split; [lia|done].
  - split; [|lia]. split; [|lia]. repeat case_match; done.
Qed.

Lemma upload_size_limit_sample :
  ((upload sample_url sample_world sample_backend).2 = Some too_large <->
     (204800 > 10485760)%Z) /\
  ((204800 > 10485760)%Z -> (upload sample_url sample_world sample_backend).1 = sample_backend).
Proof. by apply (upload_size_limit sample_url sample_world sample_backend 204800). Defined.

Lemma handle_appStructure b req : no_upload req -> appStructure (handle b req).1 = appStructure b.
Proof.
  destruct req as [imageUrl w| |uri bytes now swept|code state exchange|state now];
    [done|done| | |]; intros _; simpl.
  - unfold auth. by destruct (truthy (GITHUB_CLIENT_ID b)).
  - unfold callback. repeat case_match; by simplify_eq.
  - unfold auth_status. repeat case_match; by simplify_eq.
Qed.

(** X20. Only an upload changes the stored project: after a
    successful upload, whatever auth, callback, status and project
    requests are served, [GET /api/project] answers with the tree that
    upload built. *)
Theorem project_survives_other_requests imageUrl w appFiles b reqs :
  delivers imageUrl w appFiles ->
  Forall no_upload reqs ->
  exists t,
    buildAppHierarchy appFiles = Some t /\
    (project (serve (upload imageUrl w b).1 reqs)).2 = json_ok [("app", JTree t)].
Proof.
  intros Hdel Hreqs. destruct (upload_delivers _ _ _ b Hdel) as (t & Ht & ->).
  exists t. split; [done|]. unfold project. cbn [fst snd]. do 3 f_equal.
  induction reqs as [|req reqs IH] using rev_ind; [done|].
  apply Forall_app in Hreqs as [Hreqs [Hreq _]%Forall_cons].
  rewrite serve_snoc, handle_appStructure by done. by apply IH.
Qed.

Lemma project_survives_other_requests_sample :
  exists t,
    buildAppHierarchy scenario = Some t /\
    (project (serve (upload sample_url sample_world sample_backend).1
                [Auth "cb" sample_bytes 0 0;
                 AuthStatus (Some (toHex sample_bytes)) 1000;
                 GetProject])).2 = json_ok [("app", JTree t)].
Proof.
  apply (project_survives_other_requests sample_url sample_world scenario).
  - split; [reflexivity|]. exists 204800%Z, "A landing page with a navigation bar.".
    split_and!; [reflexivity|by vm_compute|reflexivity|reflexivity].
  - repeat constructor.
Defined.

(** X21. The sniffed type is [image/png] exactly for a buffer that
    begins with the four bytes 89 50 4E 47; every other buffer, the
    empty one and one of another format included, is labelled
    [image/jpeg]. *)
Theorem getImageMimeType_png_or_jpeg buffer :
  (getImageMimeType buffer = "image/png" <->
     exists rest, buffer = Byte.x89 :: Byte.x50 :: Byte.x4e :: Byte.x47 :: rest) /\
  (getImageMimeType buffer = "image/png" \/ getImageMimeType buffer = "image/jpeg").
Proof.
  assert (Hat : forall i b, byte_at buffer i b = true <-> nth_error buffer i = Some b).
  { intros i b. unfold byte_at. destruct (nth_error buffer i) as [x|]; [|done].
    split; [by intros ->%Byte.byte_dec_bl | intros [= ->]; by apply Byte.byte_dec_lb]. }
  unfold getImageMimeType.
  destruct (byte_at buffer 0 Byte.xff && byte_at buffer 1 Byte.xd8 && byte_at buffer 2 Byte.xff)
    eqn:Hjpeg.
  - split; [|by right]. split; [done|]. intros [rest ->]. by vm_compute in Hjpeg.
  - destruct (byte_at buffer 0 Byte.x89 && byte_at buffer 1 Byte.x50
              && byte_at buffer 2 Byte.x4e && byte_at buffer 3 Byte.x47) eqn:Hpng.
    + split; [|by left]. split; [|done]. intros _.
      apply andb_prop in Hpng as [[[H0 H1]%andb_prop H2]%andb_prop H3].
      apply Hat in H0, H1, H2, H3.
      destruct buffer as [|b0 [|b1 [|b2 [|b3 rest]]]]; try done.
      simpl in *. exists rest. congruence.
    + split; [|by right]. split; [done|]. intros [rest ->]. by vm_compute in Hpng.
Qed.

End UploadExtras.

(** * The client's connection to GitHub *)

Section ClientExtras.

Lemma checkAuth_cases state reached b c :
  (checkAuth state reached b c).2 = false /\ (checkAuth state reached b c).1.2 = c \/
  (checkAuth state reached b c).2 = true /\
  exists st s tok,
    state = Some st /\ (checkAuth state reached b c).1.1 = b /\
    githubAuthSessions b !! st = Some s /\ token s = Some tok /\
    (checkAuth state reached b c).1.2 = setConnected (Some tok) c.
Proof.
  unfold checkAuth. destruct reached as [now|]; [|by left].
  unfold auth_status. destruct state as [st|]; [|by left].
  destruct (truthy (Some st)); simpl; [|by left].
  destruct (githubAuthSessions b !! st) as [s|] eqn:Hget; [|by left].
  destruct (now - timestamp s >? TTL)%Z; [by left|].
  destruct (token s) as [tok|] eqn:Htok; [|by left].
  destruct (truthy (Some tok)); [|by left].
  right. split; [done|]. by exists st, s, tok.
Qed.

Lemma checkAuth_sessions state reached b c st s :
  githubAuthSessions (checkAuth state reached b c).1.1 !! st = Some s ->
  githubAuthSessions b !! st = Some s.
Proof.
  unfold checkAuth. destruct reached as [now|]; [|done].
  unfold auth_status. destruct state as [st'|]; [|done].
  destruct (truthy (Some st')); simpl; [|done].
  destruct (githubAuthSessions b !! st') as [s'|] eqn:Hget; [|done].
  destruct (now - timestamp s' >? TTL)%Z.
  - simpl. by intros [_ ?]%lookup_delete_Some.
  - destruct (token s') as [tok|]; [destruct (truthy (Some tok))|]; done.
Qed.

Lemma poll_loop_outcome fuel attempts state schedule b c :
  (poll_loop fuel attempts state schedule b c).2 <= fuel /\
  ((poll_loop fuel attempts state schedule b c).1.2 = c /\
   (poll_loop fuel attempts state schedule b c).2 = reached_among schedule attempts fuel \/
   exists st s tok,
     state = Some st /\
     githubAuthSessions (poll_loop fuel attempts state schedule b c).1.1 !! st = Some s /\
     token s = Some tok /\
     (poll_loop fuel attempts state schedule b c).1.2 = setConnected (Some tok) c).
Proof.
  revert attempts b c. induction fuel as [|fuel IH]; intros attempts b c; [by split; [|left]|].
  cbn [poll_loop reached_among].
  pose proof (checkAuth_cases state (reached (schedule attempts))
                (serve b (meanwhile (schedule attempts))) c) as Hcheck.
  destruct (checkAuth state (reached (schedule attempts))
              (serve b (meanwhile (schedule attempts))) c) as [[b' c'] ok].
  cbn [fst snd] in Hcheck.
  destruct Hcheck as [[-> ->]|[-> (st & s & tok & -> & -> & Hget & Htok & ->)]].
  - specialize (IH (S attempts) b' c).
    destruct (poll_loop fuel (S attempts) state schedule b' c) as [[b'' c''] n].
    cbn [fst snd] in *. destruct IH as [Hn IH]. split; [case_match; lia|].
    destruct IH as [[-> ->]|IH]; [by left|by right].
  - cbn [fst snd]. split; [case_match; lia|]. right. by exists st, s, tok.
Qed.

(** X22. Polling for the authorization makes at most thirty status
    requests and always ends with the connecting flag off. It stops
    early only on an authenticated answer, and then the client stores
    the token the session of its state holds in the table; otherwise
    every one of the thirty attempts is made, whatever the status
    route answered (pending, not found, expired or invalid), and the
    rest of the client's state is as before. *)
Theorem poll_outcome state schedule b c :
  let r := pollForGitHubAuth state schedule b c in
  r.2 <= maxAttempts /\
  isConnecting r.1.2 = false /\
  (r.1.2 = setIsConnecting false c /\ r.2 = reached_among schedule 0 maxAttempts \/
   exists st s tok,
     state = Some st /\
     githubAuthSessions r.1.1 !! st = Some s /\ token s = Some tok /\
     r.1.2 = setIsConnecting false (setConnected (Some tok) c)).
Proof.
  cbv zeta. unfold pollForGitHubAuth.
  pose proof (poll_loop_outcome maxAttempts 0 state schedule b c) as Hloop.
  destruct (poll_loop maxAttempts 0 state schedule b c) as [[b' c'] n].
  cbn [fst snd] in *. destruct Hloop as [Hn Hloop]. split; [done|]. split; [done|].
  destruct Hloop as [[-> ->]|(st & s & tok & -> & Hget & Htok & ->)]; [by left|].
  right. by exists st, s, tok.
Qed.

Lemma serve_token_source reqs b st s' tok :
  githubAuthSessions (serve b reqs) !! st = Some s' ->
  token s' = Some tok ->
  (exists s, githubAuthSessions b !! st = Some s /\ token s = Some tok) \/
  exists code, In (Callback (Some code) (Some st) (ExchangeData (Some tok))) reqs.
Proof.
  revert s' tok. induction reqs as [|req reqs IH] using rev_ind; intros s' tok Hget Htok.
  - left. by exists s'.
  - rewrite serve_snoc in Hget.
    destruct (handle_session_origin _ _ _ _ Hget) as [Hold|[Hnone|(code & s & -> & _)]].
    + destruct (IH _ _ Hold Htok) as [?|[code Hin]]; [by left|].
      right. exists code. apply in_or_app. by left.
    + congruence.
    + right. exists code. rewrite Htok. apply in_or_app. right. by left.
Qed.

Lemma poll_loop_token_source fuel attempts st schedule b c tok :
  (forall s tok', githubAuthSessions b !! st = Some s -> token s = Some tok' ->
     exists code i, i < attempts /\
       In (Callback (Some code) (Some st) (ExchangeData (Some tok')))
          (meanwhile (schedule i))) ->
  (poll_loop fuel attempts (Some st) schedule b c).1.2 = setConnected (Some tok) c ->
  c <> setConnected (Some tok) c ->
  exists code i, i < attempts + fuel /\
    In (Callback (Some code) (Some st) (ExchangeData (Some tok))) (meanwhile (schedule i)).
Proof.
  revert attempts b. induction fuel as [|fuel IH]; intros attempts b Hb Hc Hnew; [done|].
  cbn [poll_loop] in Hc.
  assert (Hb1 : forall s tok',
    githubAuthSessions (serve b (meanwhile (schedule attempts))) !! st = Some s ->
    token s = Some tok' ->
    exists code i, i < S attempts /\
      In (Callback (Some code) (Some st) (ExchangeData (Some tok')))
         (meanwhile (schedule i))).
  { intros s tok' Hget Htok.
    destruct (serve_token_source _ _ _ _ _ Hget Htok) as [(s0 & Hget0 & Htok0)|[code Hin]].
    - destruct (Hb _ _ Hget0 Htok0) as (code & i & Hi & Hin). exists code, i. split; [lia|done].
    - exists code, attempts. split; [lia|done]. }
  pose proof (checkAuth_cases (Some st) (reached (schedule attempts))
                (serve b (meanwhile (schedule attempts))) c) as Hcheck.
  pose proof (checkAuth_sessions (Some st) (reached (schedule attempts))
                (serve b (meanwhile (schedule attempts))) c st) as Hkeep.
  destruct (checkAuth (Some st) (reached (schedule attempts))
              (serve b (meanwhile (schedule attempts))) c) as [[b' c'] ok].
  cbn [fst snd] in Hcheck, Hkeep.
  destruct Hcheck as [[-> ->]|[-> (st' & s & tok' & [= <-] & -> & Hget & Htok & ->)]].
  - destruct (poll_loop fuel (S attempts) (Some st) schedule b' c) as [[b'' c''] n] eqn:Hrest.
    cbn [fst snd] in Hc.
    destruct (IH (S attempts) b') as (code & i & Hi & Hin).
    + intros s tok' Hget Htok. apply (Hb1 s); [by apply Hkeep|done].
    + by rewrite Hrest.
    + done.
    + exists code, i. split; [lia|done].
  - cbn [fst snd] in Hc. injection Hc as Htoks. subst tok'.
    destruct (Hb1 _ _ Hget Htok) as (code & i & Hi & Hin).
    exists code, i. split; [lia|done].
Qed.

(** X23. Whatever happens while the client connects, the token it
    ends up holding is the one it had, or one that a callback for the
    state of this very connection brought to the backend before one of
    the thirty polls: the client never stores a token of another
    session. *)
Theorem client_token_from_callback uri bytes now swept opened schedule b c :
  let r := connectToGitHub (Some (uri, bytes, now, swept)) opened schedule b c in
  githubToken r.1.2 = githubToken c \/
  exists tok code i,
    githubToken r.1.2 = Some tok /\ i < maxAttempts /\
    In (Callback (Some code) (Some (toHex bytes)) (ExchangeData (Some tok)))
       (meanwhile (schedule i)).
Proof.
  cbv zeta. unfold connectToGitHub.
  destruct (isConnecting c); [by left|].
  unfold auth. destruct (truthy (GITHUB_CLIENT_ID b)); [|by left].
  cbn [negb]. cbv beta iota zeta.
  change (negb (response_ok (json_ok _))) with false. cbv beta iota.
  destruct opened; [|by left]. cbn [negb].
  set (b1 := with_sessions b _). set (c1 := setIsConnecting true c).
  change (json_string _) with (Some (toHex bytes)).
  unfold pollForGitHubAuth.
  pose proof (poll_loop_outcome maxAttempts 0 (Some (toHex bytes)) schedule b1 c1) as [_ Hloop].
  pose proof (poll_loop_token_source maxAttempts 0 (toHex bytes) schedule b1 c1) as Hsource.
  destruct (poll_loop maxAttempts 0 (Some (toHex bytes)) schedule b1 c1) as [[b' c'] n].
  cbn [fst snd] in *.
  destruct Hloop as [[-> _]|(st & s & tok & _ & _ & _ & ->)]; [by left|].
  destruct (decide (githubToken c = Some tok)) as [Hsame|Hdiff]; [by left|].
  right. destruct (Hsource tok) as (code & i & Hi & Hin).
  - intros s' tok' Hget Htok. exfalso. subst b1. cbn [githubAuthSessions with_sessions] in Hget.
    apply cleanup_lookup in Hget as [Hget _].
    rewrite lookup_insert_eq in Hget. by simplify_eq.
  - done.
  - intros Heq. apply (f_equal githubToken) in Heq. by simpl in Heq.
  - by exists tok, code, i.
Qed.

Lemma poll_loop_connects k : forall fuel attempts st schedule b c created code tok t,
  st <> EmptyString -> code <> EmptyString -> tok <> EmptyString ->
  githubAuthSessions b !! st = Some {| timestamp := created; token := None |} ->
  (forall i, attempts <= i < attempts + k ->
     meanwhile (schedule i) = [] /\
     forall t', reached (schedule i) = Some t' -> (t' - created <= TTL)%Z) ->
  schedule (attempts + k) =
    {| meanwhile := [Callback (Some code) (Some st) (ExchangeData (Some tok))];
       reached := Some t |} ->
  (t - created <= TTL)%Z ->
  k < fuel ->
  (poll_loop fuel attempts (Some st) schedule b c).1.2 = setConnected (Some tok) c.
Proof.
  induction k as [|k IH];
    intros fuel attempts st schedule b c created code tok t Hst Hcode Htok Hget Hquiet Hk Ht Hfuel;
    (destruct fuel as [|fuel]; [lia|]); cbn [poll_loop].
  - rewrite Nat.add_0_r in Hk. rewrite Hk. cbn [meanwhile reached serve fold_left handle].
    rewrite (callback_success b code st _ tok Hcode Hst Htok Hget). cbn [fst timestamp].
    unfold checkAuth.
    rewrite (auth_status_authorized _ st {| timestamp := created; token := Some tok |} tok t);
      [done|done| |done|done|done].
    cbn [githubAuthSessions with_sessions]. by rewrite lookup_insert_eq.
  - destruct (Hquiet attempts ltac:(lia)) as [Hnone Hclock]. rewrite Hnone.
    cbn [serve fold_left]. unfold checkAuth.
    assert (Hrest : (poll_loop fuel (S attempts) (Some st) schedule b c).1.2
                    = setConnected (Some tok) c).
    { apply (IH fuel (S attempts) st schedule b c created code tok t); try done.
      - intros i Hi. apply Hquiet. lia.
      - by rewrite <- Hk, Nat.add_succ_r.
      - lia. }
    destruct (reached (schedule attempts)) as [t'|] eqn:Hreached.
    + rewrite (auth_status_pending b st _ t' Hst Hget) by (by apply Hclock || done).
      change (response_ok status_pending && json_truthy (field "authenticated" status_pending))
        with false. cbv beta iota.
      destruct (poll_loop fuel (S attempts) (Some st) schedule b c) as [[b'' c''] n].
      by cbn [fst snd] in *.
    + destruct (poll_loop fuel (S attempts) (Some st) schedule b c) as [[b'' c''] n].
      by cbn [fst snd] in *.
Qed.

(** X24. The connection succeeds end to end: with the client id
    configured and the window opened, when the provider's callback for
    the session reaches the backend before one of the thirty polls,
    the polls before it see a quiet backend, and all of them come
    within ten minutes of the session's creation, the promise resolves
    and the client ends connected, holding the token of that callback,
    with the connecting flag off. *)
Theorem connect_succeeds uri bytes now swept schedule b c k code tok t :
  isConnecting c = false ->
  truthy (GITHUB_CLIENT_ID b) = true ->
  length bytes = 32 ->
  (swept - TTL <= now)%Z ->
  k < maxAttempts ->
  (forall i, i < k ->
     meanwhile (schedule i) = [] /\
     forall t', reached (schedule i) = Some t' -> (t' - now <= TTL)%Z) ->
  schedule k =
    {| meanwhile := [Callback (Some code) (Some (toHex bytes)) (ExchangeData (Some tok))];
       reached := Some t |} ->
  code <> EmptyString -> tok <> EmptyString -> (t - now <= TTL)%Z ->
  let r := connectToGitHub (Some (uri, bytes, now, swept)) true schedule b c in
  r.2 = true /\ r.1.2 = setIsConnecting false (setConnected (Some tok) c).
Proof.
  intros Hc Hid Hlen Hswept Hk Hquiet Hkth Hcode Htok Ht. cbv zeta.
  pose proof (auth_session uri bytes now swept b Hid Hswept) as Hget.
  unfold connectToGitHub. rewrite Hc.
  destruct (auth_configured uri bytes now swept b Hid) as [authUrl Hauth].
  rewrite Hauth in *. cbn [fst] in Hget. cbv beta iota.
  change (negb (response_ok (json_ok _))) with false. cbv beta iota. cbn [negb].
  change (json_string (field "state" _)) with (Some (toHex bytes)).
  set (b1 := with_sessions b _) in *. unfold pollForGitHubAuth.
  pose proof (poll_loop_connects k maxAttempts 0 (toHex bytes) schedule b1
                (setIsConnecting true c) now code tok t
                (toHex_nonempty _ Hlen) Hcode Htok Hget) as Hloop.
  destruct (poll_loop maxAttempts 0 (Some (toHex bytes)) schedule b1 (setIsConnecting true c))
    as [[b' c'] n].
  cbn [fst snd] in *. split; [done|]. rewrite Hloop; [done| |done|done|done].
  intros i Hi. apply Hquiet. lia.
Qed.

Lemma connect_succeeds_sample :
  let r := connectToGitHub (Some ("cb", sample_bytes, 0, 0)%Z) true sample_schedule
             sample_backend new_client in
  r.2 = true /\ r.1.2 = setIsConnecting false (setConnected (Some "gho_abc") new_client).
Proof.
  apply (connect_succeeds "cb" sample_bytes 0 0 sample_schedule sample_backend new_client
           2 "c0de" "gho_abc" 25000);
    try reflexivity; try discriminate; try (by vm_compute); try (unfold maxAttempts; lia).
  intros i Hi.
  destruct i as [|[|i]]; [| |lia]; (split; [reflexivity|]); intros t' [= <-]; by vm_compute.
Defined.

(** X25. A connection attempt never leaves the connecting flag stuck:
    started while another one is in progress it does nothing at all;
    otherwise it ends with the flag off on every path, whether the
    auth request fails, the window cannot be opened or the polling
    runs out, and it makes no status request unless the auth request
    was answered and the window opened. *)
Theorem connect_resets_flag auth_request opened schedule b c :
  let r := connectToGitHub auth_request opened schedule b c in
  (isConnecting c = true /\ r = (b, c, true)) \/
  (isConnecting c = false /\ isConnecting r.1.2 = false /\
   (r.2 = false ->
    r.1.2 = c /\
    match auth_request with
    | Some (uri, bytes, now, swept) => r.1.1 = (auth uri bytes now swept b).1
    | None => r.1.1 = b
    end)).
Proof.
  cbv zeta. unfold connectToGitHub.
  destruct (isConnecting c) eqn:Hc; [by left|]. right. split; [done|].
  assert (Hback : setIsConnecting false (setIsConnecting true c) = c).
  { destruct c. simpl in *. by subst. }
  destruct auth_request as [[[[uri bytes] now] swept]|]; [|by rewrite Hback].
  destruct (auth uri bytes now swept b) as [b1 res].
  destruct (response_ok res); cbn [negb]; [|by rewrite Hback].
  destruct opened; cbn [negb]; [|by rewrite Hback].
  destruct (pollForGitHubAuth _ schedule b1 _) as [[b2 c2] n]. by cbn [fst snd].
Qed.

End ClientExtras.
